(** * Texture domains and the glyph atlas manager

    A shallow embedding of [src/gpu/effects/GrTextureDomain.h] and
    [src/gpu/text/GrAtlasManager.cpp], with the properties the specification
    states about them, and of the box layout and the draw loops of
    [tests/GrMeshTest.cpp].

    Conventions.
    - C++ integers are [Z]; the wrap-around of a 32-bit result is written out
      ([wrap_u32], [wrap_s32]), and a loop over [int]s ends in [Overflows]
      when one of its [int] expressions leaves the range of [int].
    - [SkScalar] is the IEEE-754 binary32 format: values are [spec_float]s and
      the arithmetic is [SFadd]/[SFsub] at precision 24 and maximal exponent
      128, with round-to-nearest-even.
    - The array [fAtlases] is a list of optional atlases, read with [!!] and
      written with [<[i:=x]>]; a slot owns its atlas, so an assignment
      deletes the atlas the slot held. *)

From Stdlib Require Import ZArith QArith Qpower Lia Bool List.
From Stdlib Require Import Floats.SpecFloat.
From stdpp Require Import base option list.

Local Open Scope Z_scope.

(** * Part I: the embedding *)

(** ** Machine integers *)

Definition wrap_u32 (z : Z) : Z := z mod 2 ^ 32.

Definition wrap_s32 (z : Z) : Z := (z + 2 ^ 31) mod 2 ^ 32 - 2 ^ 31.

Definition is_int32 (z : Z) : Prop := - 2 ^ 31 <= z < 2 ^ 31.

(** ** SkScalar: 32-bit floats

    [SkScalar] and [SK_ScalarHalf] come from [include/core/SkScalar.h], which
    is not among the sources at hand: [SkScalar] is [float], and
    [SK_ScalarHalf] is the half texel of the spec, [0.5f]. *)

Module SkScalar.

Definition prec : Z := 24.
Definition emax : Z := 128.

Definition t : Type := spec_float.

(** Conversion of an [int32_t] operand to [float], as the usual arithmetic
    conversions do for [int + float]: the nearest float, ties to even. *)
Definition of_int (z : Z) : t := binary_normalize prec emax z 0 false.

Definition add (x y : t) : t := SFadd prec emax x y.
Definition sub (x y : t) : t := SFsub prec emax x y.

(** The C++ [==] on floats: a NaN equals nothing, the two zeros are equal. *)
Definition eqb (x y : t) : bool := SFeqb x y.

Definition is_nan (x : t) : bool :=
  match x with S754_nan => true | _ => false end.

(** The literal [0] in a float context, and [SK_ScalarHalf] ([0.5f]). *)
Definition zero : t := S754_zero false.
Definition SK_ScalarHalf : t := S754_finite false 8388608 (-24).

(** The rational number a finite float stands for ([None] for infinities and
    NaN). *)
Definition to_Q (x : t) : option Q :=
  match x with
  | S754_zero _ => Some 0%Q
  | S754_finite s m e =>
      Some (inject_Z (cond_Zopp s (Z.pos m)) * Qpower 2 e)%Q
  | S754_infinity _ | S754_nan => None
  end.

(** [x] is a finite float whose value is the rational [q]. *)
Definition has_value (x : t) (q : Q) : Prop :=
  match to_Q x with
  | Some v => Qeq v q
  | None => False
  end.

(** [shl m n] is [m] followed by [n] zero bits, and [normal s n e] the
    canonical binary32 float of the number [(-1)^s * n * 2^e], for an [n] of
    at most 24 bits: the mantissa is [n] shifted up to 24 bits. *)
Definition shl (m : positive) (n : nat) : positive := Nat.iter n xO m.

Definition normal (s : bool) (n : positive) (e : Z) : t :=
  S754_finite s (shl n (Z.to_nat (24 - Z.pos (digits2_pos n))))
              (Z.pos (digits2_pos n) + e - 24).

(** The exponent binary32 gives a number of magnitude below [2^e]. *)
Definition fexp32 (e : Z) : Z := fexp 24 128 e.

(** A finite non-zero float or an infinity, of sign [s]. *)
Definition nonzero_of_sign (s : bool) (x : t) : Prop :=
  match x with
  | S754_finite s' _ _ | S754_infinity s' => s' = s
  | S754_zero _ | S754_nan => False
  end.

End SkScalar.

(** ** SkIRect and SkRect

    The two rectangle structs are declared in [include/core/SkRect.h], which
    is not among the sources at hand; the fields and [MakeLTRB] are taken
    from their use in [MakeTexelDomain]. *)

Record SkIRect : Type := MakeIRect {
  iLeft : Z;
  iTop : Z;
  iRight : Z;
  iBottom : Z
}.

(** Modelled from the spec: [SkIRect::width] and [SkIRect::height] are not
    in the sources.  The extent of an axis is its right minus its left edge
    (bottom minus top), computed in the 32-bit type of the fields. *)
Definition SkIRect_width (r : SkIRect) : Z := wrap_s32 (iRight r - iLeft r).
Definition SkIRect_height (r : SkIRect) : Z := wrap_s32 (iBottom r - iTop r).

Definition SkIRect_valid (r : SkIRect) : Prop :=
  is_int32 (iLeft r) /\ is_int32 (iTop r) /\
  is_int32 (iRight r) /\ is_int32 (iBottom r).

Record SkRect : Type := MakeLTRB {
  fLeft : SkScalar.t;
  fTop : SkScalar.t;
  fRight : SkScalar.t;
  fBottom : SkScalar.t
}.

(** Coordinates that a 32-bit float holds exactly, together with their
    neighbours half a texel away. *)
Definition texel_exact (z : Z) : Prop := - 2 ^ 23 < z < 2 ^ 23.

Definition SkIRect_exact (r : SkIRect) : Prop :=
  texel_exact (iLeft r) /\ texel_exact (iTop r) /\
  texel_exact (iRight r) /\ texel_exact (iBottom r).

(** A rectangle of integer-valued floats, for writing examples. *)
Definition SkRect_of_ints (l t r b : Z) : SkRect :=
  MakeLTRB (SkScalar.of_int l) (SkScalar.of_int t)
           (SkScalar.of_int r) (SkScalar.of_int b).

(** ** GrTextureDomain *)

Module GrTextureDomain.

Inductive Mode : Type :=
  | kIgnore_Mode
  | kClamp_Mode
  | kDecal_Mode
  | kRepeat_Mode
  | kMirrorRepeat_Mode.

Definition kLastMode : Mode := kMirrorRepeat_Mode.

(** The enumerators' integer values, in declaration order from 0. *)
Definition Mode_value (m : Mode) : Z :=
  match m with
  | kIgnore_Mode => 0
  | kClamp_Mode => 1
  | kDecal_Mode => 2
  | kRepeat_Mode => 3
  | kMirrorRepeat_Mode => 4
  end.

Definition kModeCount : Z := Mode_value kLastMode + 1.

Definition Mode_eqb (a b : Mode) : bool := Mode_value a =? Mode_value b.

Record t : Type := Build {
  fDomain : SkRect;
  fModeX : Mode;
  fModeY : Mode;
  fIndex : Z
}.

Definition domain (d : t) : SkRect := fDomain d.
Definition modeX (d : t) : Mode := fModeX d.
Definition modeY (d : t) : Mode := fModeY d.

(** Modelled from the spec: the constructor
    [GrTextureDomain(const SkRect&, Mode, Mode, int index = -1)] is only
    declared in the header.  The spec describes the value as the immutable
    tuple of the rectangle, the two modes and the optional index it is
    constructed from. *)
Definition TextureDomain (domain : SkRect) (modeX modeY : Mode) : t :=
  Build domain modeX modeY (-1).

Definition TextureDomainIdx (domain : SkRect) (modeX modeY : Mode)
    (index : Z) : t :=
  Build domain modeX modeY index.

(** [MakeTexelDomain(texelRect, modeX, modeY)] *)
Definition MakeTexelDomain (texelRect : SkIRect) (modeX modeY : Mode) : SkRect :=
  let insetX :=
    if (Mode_eqb modeX kClamp_Mode || Mode_eqb modeX kDecal_Mode)
       && (0 <? SkIRect_width texelRect)
    then SkScalar.SK_ScalarHalf else SkScalar.zero in
  let insetY :=
    if (Mode_eqb modeY kClamp_Mode || Mode_eqb modeY kDecal_Mode)
       && (0 <? SkIRect_height texelRect)
    then SkScalar.SK_ScalarHalf else SkScalar.zero in
  MakeLTRB (SkScalar.add (SkScalar.of_int (iLeft texelRect)) insetX)
           (SkScalar.add (SkScalar.of_int (iTop texelRect)) insetY)
           (SkScalar.sub (SkScalar.of_int (iRight texelRect)) insetX)
           (SkScalar.sub (SkScalar.of_int (iBottom texelRect)) insetY).

(** [MakeTexelDomain(texelRect, mode)]: the mode is used for both axes. *)
Definition MakeTexelDomain1 (texelRect : SkIRect) (mode : Mode) : SkRect :=
  MakeTexelDomain texelRect mode mode.

(** [operator==] *)
Definition operator_eq (this that : t) : bool :=
  Mode_eqb (fModeX this) (fModeX that)
  && Mode_eqb (fModeY this) (fModeY that)
  && (Mode_eqb kIgnore_Mode (fModeX this)
      || (SkScalar.eqb (fLeft (fDomain this)) (fLeft (fDomain that))
          && SkScalar.eqb (fRight (fDomain this)) (fRight (fDomain that))))
  && (Mode_eqb kIgnore_Mode (fModeY this)
      || (SkScalar.eqb (fTop (fDomain this)) (fTop (fDomain that))
          && SkScalar.eqb (fBottom (fDomain this)) (fBottom (fDomain that)))).

Definition operator_ne (this that : t) : bool := negb (operator_eq this that).

(** *** Notions the statements about [MakeTexelDomain] and [==] use *)

(** The modes that inset an axis. *)
Definition insets (m : Mode) : bool :=
  match m with
  | kClamp_Mode | kDecal_Mode => true
  | _ => false
  end.

(** The inset [MakeTexelDomain] computes for an axis of mode [m] whose
    extent, [width()] or [height()], is [ext]. *)
Definition axis_inset (m : Mode) (ext : Z) : SkScalar.t :=
  if (Mode_eqb m kClamp_Mode || Mode_eqb m kDecal_Mode) && (0 <? ext)
  then SkScalar.SK_ScalarHalf else SkScalar.zero.

(** One axis of a texel domain, with integer bounds [lo] and [hi] and float
    results [flo] and [fhi]: inset by half a texel on each side, or left at
    the converted bounds. *)
Definition axis_domain (inset : bool) (lo hi : Z) (flo fhi : SkScalar.t) : Prop :=
  if inset then
    SkScalar.has_value flo (inject_Z lo + (1 # 2))%Q
    /\ SkScalar.has_value fhi (inject_Z hi - (1 # 2))%Q
  else
    flo = SkScalar.of_int lo /\ fhi = SkScalar.of_int hi
    /\ SkScalar.has_value flo (inject_Z lo)
    /\ SkScalar.has_value fhi (inject_Z hi).

(** Two edges are equal when the float comparison [==] of the source says
    so. *)
Definition edges_equal (x y : SkScalar.t) : Prop := SkScalar.eqb x y = true.

(** None of the edges [operator==] looks at is a NaN. *)
Definition compared_edges_not_nan (r : SkRect) (mx my : Mode) : Prop :=
  (mx <> kIgnore_Mode ->
     SkScalar.is_nan (fLeft r) = false /\ SkScalar.is_nan (fRight r) = false) /\
  (my <> kIgnore_Mode ->
     SkScalar.is_nan (fTop r) = false /\ SkScalar.is_nan (fBottom r) = false).

Definition with_index (d : t) (index : Z) : t :=
  Build (fDomain d) (fModeX d) (fModeY d) index.

(** *** GLDomain: the key part *)

Module GLDomain.

Definition kModeBits : Z := 3.
Definition kDomainKeyBits : Z := 4.

(** The [static_assert] of [DomainKey]. *)
Definition DomainKey_static_assert : bool := kModeCount <=? Z.shiftl 1 kModeBits.

(** [DomainKey(domain)]: the [int] expression converted to [uint32_t]. *)
Definition DomainKey (domain : t) : Z :=
  wrap_u32 (Z.lor (Mode_value (modeX domain))
                  (Z.shiftl (Mode_value (modeY domain)) kModeBits)).

(** What the doc comment of [DomainKey] promises of a value [k]: only the
    lower [kDomainKeyBits] bits may be set. *)
Definition fits_in_key_bits (k : Z) : Prop := 0 <= k < 2 ^ kDomainKeyBits.

End GLDomain.

End GrTextureDomain.

(** ** GrDrawOpAtlas: the per-format atlas

    [GrDrawOpAtlas] is declared outside the files at hand.  What the three
    claims about it need is written down from the spec's sections 3, 4.1,
    4.2 and 7. *)

Module GrDrawOpAtlas.

(** Modelled from the spec: the error taxonomy of section 7
    ([GrDrawOpAtlas::ErrorCode] is used but not declared in the sources). *)
Inductive ErrorCode : Type :=
  | kSucceeded
  | kOversized
  | kError.

(** A sub-rectangle within a plot: position and size. *)
Record PlotRect : Type := MakePlotRect {
  rX : Z;
  rY : Z;
  rW : Z;
  rH : Z
}.

(** Modelled from the spec: the locator of section 3, the handle
    {page index, plot index within page, sub-rectangle within plot,
    generation counter}. *)
Record AtlasLocator : Type := MakeLocator {
  pageIndex : nat;
  plotIndex : nat;
  locRect : PlotRect;
  locGeneration : nat
}.

Definition plotKey (l : AtlasLocator) : nat * nat := (pageIndex l, plotIndex l).

(** *** BulkUseTokenUpdater *)

(** Modelled from the spec: [BulkUseTokenUpdater] and its [add] are not in
    the sources.  Section 4.2: the bulk update "marks each referenced plot's
    last-used token in one pass, deduplicating repeated plots"; [add] records
    the plot of a locator and answers whether it was new.  The manager calls
    [updater->add(glyph->fAtlasLocator)]: [add] is given the locator alone,
    and the locator of section 3 names a page and a plot, no atlas. *)
Record BulkUseTokenUpdater : Type := MakeUpdater {
  fPlotsToUpdate : list (nat * nat)
}.

Definition BulkUseTokenUpdater_new : BulkUseTokenUpdater := MakeUpdater [].

Definition BulkUseTokenUpdater_find (u : BulkUseTokenUpdater) (k : nat * nat) : bool :=
  bool_decide (k ∈ fPlotsToUpdate u).

Definition BulkUseTokenUpdater_add (u : BulkUseTokenUpdater) (l : AtlasLocator)
    : bool * BulkUseTokenUpdater :=
  if BulkUseTokenUpdater_find u (plotKey l)
  then (false, u)
  else (true, MakeUpdater (fPlotsToUpdate u ++ [plotKey l])).

(** *** Pages, plots and [addToAtlas] *)

(** The packer of one plot (section 4.1).  The spec fixes its contract, a
    partial [tryPack(width, height)] and an empty state to reset to, and
    leaves the shelf strategy open. *)
Class RectPacker : Type := {
  Packing : Type;
  emptyPacking : Packing;
  tryPack : Packing -> Z -> Z -> option (PlotRect * Packing)
}.

Section Atlas.
Context {packer : RectPacker}.

Record Plot : Type := MakePlot {
  fPacking : Packing;
  fGeneration : nat;
  fLastUse : nat
}.

Record Page : Type := MakePage { fPlots : list Plot }.

Record Upload : Type := MakeUpload {
  upLocator : AtlasLocator;
  upPixels : list Z
}.

(** Modelled from the spec: the AtlasPage Manager of section 3, "an ordered
    sequence of Pages (1..max)", the plot dimensions and the bookkeeping.
    [fPageOrder] lists the page indices most recently active first;
    [fUploads] is the queue of texture uploads handed to the deferred
    execution collaborator. *)
Record t : Type := MakeAtlas {
  fPlotWidth : Z;
  fPlotHeight : Z;
  fPlotsPerPage : nat;
  fMaxPages : nat;
  fPages : list Page;
  fPageOrder : list nat;
  fUploads : list Upload
}.

Definition emptyPlot : Plot := MakePlot emptyPacking 0 0.

(** [resetPlot]: occupancy cleared, generation bumped (section 4.1). *)
Definition resetPlot (p : Plot) : Plot :=
  MakePlot emptyPacking (S (fGeneration p)) (fLastUse p).

Definition newPage (n : nat) : Page := MakePage (replicate n emptyPlot).

(** Pack into the first plot of the list, from index [i] on, that has room. *)
Fixpoint packInPlots (plots : list Plot) (i : nat) (w h : Z)
    : option (nat * PlotRect * nat * list Plot) :=
  match plots with
  | [] => None
  | p :: rest =>
      match tryPack (fPacking p) w h with
      | Some (r, pk) =>
          Some (i, r, fGeneration p, MakePlot pk (fGeneration p) (fLastUse p) :: rest)
      | None =>
          match packInPlots rest (S i) w h with
          | Some (j, r, g, rest') => Some (j, r, g, p :: rest')
          | None => None
          end
      end
  end.

Definition with_pages (a : t) (pages : list Page) (order : list nat) : t :=
  MakeAtlas (fPlotWidth a) (fPlotHeight a) (fPlotsPerPage a) (fMaxPages a)
            pages order (fUploads a).

Definition with_upload (a : t) (u : Upload) : t :=
  MakeAtlas (fPlotWidth a) (fPlotHeight a) (fPlotsPerPage a) (fMaxPages a)
            (fPages a) (fPageOrder a) (fUploads a ++ [u]).

Definition touchPage (order : list nat) (pg : nat) : list nat :=
  pg :: filter (fun q => negb (Nat.eqb q pg)) order.

(** Pack into page [pg], if it exists and has a plot with room. *)
Definition packInPage (a : t) (pg : nat) (w h : Z) : option (AtlasLocator * t) :=
  match fPages a !! pg with
  | None => None
  | Some page =>
      match packInPlots (fPlots page) 0 w h with
      | None => None
      | Some (pl, r, g, plots') =>
          Some (MakeLocator pg pl r g,
                with_pages a (<[pg := MakePage plots']> (fPages a))
                           (touchPage (fPageOrder a) pg))
      end
  end.

(** Step 2: scan the pages, most recently active first. *)
Fixpoint packInPages (a : t) (order : list nat) (w h : Z)
    : option (AtlasLocator * t) :=
  match order with
  | [] => None
  | pg :: rest =>
      match packInPage a pg w h with
      | Some res => Some res
      | None => packInPages a rest w h
      end
  end.

(** The least recently used plot of a list of (page, plot, token) entries:
    the oldest token, the earliest entry among equals. *)
Fixpoint oldest (entries : list (nat * nat * nat)) : option (nat * nat * nat) :=
  match entries with
  | [] => None
  | e :: rest =>
      match oldest rest with
      | Some e' => if Nat.leb (snd e) (snd e') then Some e else Some e'
      | None => Some e
      end
  end.

Definition plotEntries (pages : list Page) : list (nat * nat * nat) :=
  concat (imap (fun pg page => imap (fun pl p => (pg, pl, fLastUse p)) (fPlots page))
               pages).

(** Step 4: reset the globally least recently used plot and retry once. *)
Definition evictAndPack (a : t) (w h : Z) : option (AtlasLocator * t) * t :=
  match oldest (plotEntries (fPages a)) with
  | None => (None, a)
  | Some (pg, pl, _) =>
      match fPages a !! pg with
      | None => (None, a)
      | Some page =>
          match fPlots page !! pl with
          | None => (None, a)
          | Some p =>
              let p0 := resetPlot p in
              let a0 := with_pages a
                          (<[pg := MakePage (<[pl := p0]> (fPlots page))]> (fPages a))
                          (fPageOrder a) in
              match tryPack (fPacking p0) w h with
              | None => (None, a0)
              | Some (r, pk) =>
                  let p1 := MakePlot pk (fGeneration p0) (fLastUse p0) in
                  (Some (MakeLocator pg pl r (fGeneration p0),
                         with_pages a
                           (<[pg := MakePage (<[pl := p1]> (fPlots page))]> (fPages a))
                           (touchPage (fPageOrder a) pg)),
                   a0)
              end
          end
      end
  end.

(** Modelled from the spec: [GrDrawOpAtlas::addToAtlas] is not in the
    sources.  Section 4.2 gives its algorithm in five steps: (1) a request
    larger than a plot is [kOversized], nothing is attempted; (2) pack into
    an existing page; (3) below the page limit, create a page and pack into
    it; (4) at the limit, reset the least recently used plot and retry once,
    [kError] if that fails; (5) on success upload the pixels and return
    [kSucceeded] with the locator. *)
Definition addToAtlas (a : t) (width height : Z) (pixels : list Z)
    : ErrorCode * option AtlasLocator * t :=
  if (fPlotWidth a <? width) || (fPlotHeight a <? height) then
    (kOversized, None, a)
  else
    let succeed (res : AtlasLocator * t) :=
      (kSucceeded, Some (fst res), with_upload (snd res) (MakeUpload (fst res) pixels)) in
    match packInPages a (fPageOrder a) width height with
    | Some res => succeed res
    | None =>
        if Nat.ltb (length (fPages a)) (fMaxPages a) then
          let pg := length (fPages a) in
          let a1 := with_pages a (fPages a ++ [newPage (fPlotsPerPage a)])
                               (fPageOrder a ++ [pg]) in
          match packInPage a1 pg width height with
          | Some res => succeed res
          | None => (kError, None, a1)
          end
        else
          match evictAndPack a width height with
          | (Some res, _) => succeed res
          | (None, a0) => (kError, None, a0)
          end
    end.

End Atlas.

End GrDrawOpAtlas.

(** ** GrAtlasManager *)

Module GrAtlasManager.

Import GrDrawOpAtlas.

Record SkISize : Type := MakeISize { szWidth : Z; szHeight : Z }.

(** The arguments [initAtlas] passes to [GrDrawOpAtlas::Make]. *)
Record MakeArgs (BackendFormat ColorType : Type) : Type := MakeMakeArgs {
  mkFormat : BackendFormat;
  mkColorType : ColorType;
  mkWidth : Z;
  mkHeight : Z;
  mkPlotWidth : Z;
  mkPlotHeight : Z;
  mkAllowMultitexturing : bool
}.
Arguments MakeMakeArgs {BackendFormat ColorType}.

(** What the manager uses and the sources at hand only name: the mask
    formats and their atlas index, the colour types, the size configuration,
    the caps query, and the atlas class with its factory and the three
    methods the manager forwards to.  An [Atlas] is the identity of a
    [GrDrawOpAtlas] object; the object's contents and the GPU resources
    behind it live in the collaborators' state, [World].  A slot of
    [fAtlases] owns its atlas ("Delete any old atlases", says
    [setAtlasDimensionsToMinimum_ForTesting] of its assignments of
    [nullptr]): [GrDrawOpAtlas_delete] is what deleting an atlas does to the
    world. *)
Class Collaborators : Type := {
  GrMaskFormat : Type;
  kMaskFormatCount : nat;
  MaskFormatToAtlasIndex : GrMaskFormat -> nat;
  GrColorType : Type;
  GrMaskFormatToColorType : GrMaskFormat -> GrColorType;
  GrBackendFormat : Type;
  getDefaultBackendFormat : GrColorType -> GrBackendFormat;
  GrDrawOpAtlasConfig : Type;
  GrDrawOpAtlasConfig_default : GrDrawOpAtlasConfig;
  atlasDimensions : GrDrawOpAtlasConfig -> GrMaskFormat -> SkISize;
  plotDimensions : GrDrawOpAtlasConfig -> GrMaskFormat -> SkISize;
  Atlas : Type;
  World : Type;
  GrDrawOpAtlas_Make :
    MakeArgs GrBackendFormat GrColorType -> World -> option Atlas * World;
  GrDrawOpAtlas_hasID : Atlas -> AtlasLocator -> World -> bool;
  GrDrawOpAtlas_addToAtlas :
    Atlas -> Z -> Z -> list Z -> AtlasLocator -> World ->
    ErrorCode * AtlasLocator * World;
  GrDrawOpAtlas_setLastUseToken : Atlas -> AtlasLocator -> nat -> World -> World;
  GrDrawOpAtlas_delete : Atlas -> World -> World
}.

Section Manager.
Context {C : Collaborators}.

(** [GrGlyph] as far as the manager looks at it.  The source asserts that a
    [GrGlyph*] argument is not null; here the argument is the glyph. *)
Record GrGlyph : Type := MakeGlyph { fAtlasLocator : AtlasLocator }.

Record t : Type := MakeManager {
  fAllowMultitexturing : bool;
  fAtlases : list (option Atlas);
  fAtlasConfig : GrDrawOpAtlasConfig
}.

(** Calls that leave the manager, in the order they are made. *)
Inductive Event : Type :=
  | EvMake (index : nat) (args : MakeArgs GrBackendFormat GrColorType)
  | EvHasID (a : Atlas) (l : AtlasLocator)
  | EvAddToAtlas (a : Atlas) (width height : Z)
  | EvSetLastUseToken (a : Atlas) (l : AtlasLocator) (token : nat)
  | EvDelete (a : Atlas).

Record Sys : Type := MakeSys {
  manager : t;
  world : World;
  trace : list Event
}.

(** Computations on the manager: the state is threaded, and [None] stands for
    undefined behaviour (an index outside [fAtlases], a null atlas
    dereferenced). *)
Definition M (A : Type) : Type := Sys -> option (A * Sys).

Definition ret {A} (a : A) : M A := fun s => Some (a, s).

Definition bind {A B} (m : M A) (k : A -> M B) : M B :=
  fun s => match m s with
           | Some (a, s') => k a s'
           | None => None
           end.

Definition fault {A} : M A := fun _ => None.

Notation "'do' x <- m ; k" := (bind m (fun x => k))
  (at level 10, x name, m at level 100, k at level 200).
Notation "m ;; k" := (bind m (fun _ => k))
  (at level 100, k at level 200, right associativity).

Definition with_atlases (m : t) (l : list (option Atlas)) : t :=
  MakeManager (fAllowMultitexturing m) l (fAtlasConfig m).

Definition with_config (m : t) (c : GrDrawOpAtlasConfig) : t :=
  MakeManager (fAllowMultitexturing m) (fAtlases m) c.

(** [fAtlases[i]] read, and the pointer in it stored. *)
Definition readAtlas (i : nat) : M (option Atlas) :=
  fun s => match fAtlases (manager s) !! i with
           | Some slot => Some (slot, s)
           | None => None
           end.

Definition writeAtlas (i : nat) (v : option Atlas) : M unit :=
  fun s => if Nat.ltb i (length (fAtlases (manager s)))
           then Some (tt, MakeSys (with_atlases (manager s)
                                     (<[i := v]> (fAtlases (manager s))))
                                  (world s) (trace s))
           else None.

Definition getManager : M t := fun s => Some (manager s, s).

Definition setConfig (c : GrDrawOpAtlasConfig) : M unit :=
  fun s => Some (tt, MakeSys (with_config (manager s) c) (world s) (trace s)).

Definition emit (e : Event) : M unit :=
  fun s => Some (tt, MakeSys (manager s) (world s) (trace s ++ [e])).

(** A call of a collaborator that may change the world. *)
Definition call {A} (f : World -> A * World) : M A :=
  fun s => let '(a, w) := f (world s) in
           Some (a, MakeSys (manager s) w (trace s)).

(** Modelled from the spec: the type of the slots is declared in
    [GrAtlasManager.h], which is not among the sources.  Section 4.3 has
    [freeAll] release the per-format managers "and their GPU resources
    immediately", and the source says "Delete any old atlases" of its
    assignments of [nullptr]: a slot owns its atlas, and [fAtlases[i] = v]
    stores the new pointer and deletes the atlas the slot held, if any. *)
Definition assignAtlas (i : nat) (v : option Atlas) : M unit :=
  do old <- readAtlas i;
  writeAtlas i v;;
  match old with
  | Some a => emit (EvDelete a);; call (fun w => (tt, GrDrawOpAtlas_delete a w))
  | None => ret tt
  end.

(** [for (int i = 0; i < n; ++i) body(i)] *)
Fixpoint for_each (l : list nat) (body : nat -> M unit) : M unit :=
  match l with
  | [] => ret tt
  | i :: rest => body i;; for_each rest body
  end.

Definition for_upto (n : nat) (body : nat -> M unit) : M unit :=
  for_each (seq 0 n) body.

(** [GrAtlasManager::freeAll] *)
Definition freeAll : M unit :=
  for_upto kMaskFormatCount (fun i => assignAtlas i None).

(** [GrAtlasManager::setAtlasDimensionsToMinimum_ForTesting] *)
Definition setAtlasDimensionsToMinimum_ForTesting : M unit :=
  for_upto kMaskFormatCount (fun i => assignAtlas i None);;
  setConfig GrDrawOpAtlasConfig_default.

Definition makeArgs (m : t) (format : GrMaskFormat)
    : MakeArgs GrBackendFormat GrColorType :=
  let grColorType := GrMaskFormatToColorType format in
  let atlasDims := atlasDimensions (fAtlasConfig m) format in
  let plotDims := plotDimensions (fAtlasConfig m) format in
  MakeMakeArgs (getDefaultBackendFormat grColorType) grColorType
               (szWidth atlasDims) (szHeight atlasDims)
               (szWidth plotDims) (szHeight plotDims)
               (fAllowMultitexturing m).

(** [GrAtlasManager::initAtlas] *)
Definition initAtlas (format : GrMaskFormat) : M bool :=
  let index := MaskFormatToAtlasIndex format in
  do slot <- readAtlas index;
  match slot with
  | None =>
      do m <- getManager;
      let args := makeArgs m format in
      emit (EvMake index args);;
      do made <- call (GrDrawOpAtlas_Make args);
      assignAtlas index made;;
      do slot' <- readAtlas index;
      match slot' with
      | None => ret false
      | Some _ => ret true
      end
  | Some _ => ret true
  end.

(** Modelled from the spec: [getAtlas] is declared in [GrAtlasManager.h],
    which is not among the sources.  Section 4.3: the operations "delegate
    to the per-format manager, creating it on first use".  When the creation
    fails there is no atlas to delegate to; the spec names no result for
    that, and it is a fault here. *)
Definition getAtlas (format : GrMaskFormat) : M Atlas :=
  do ok <- initAtlas format;
  if ok then
    do slot <- readAtlas (MaskFormatToAtlasIndex format);
    match slot with
    | Some a => ret a
    | None => fault
    end
  else fault.

(** [GrAtlasManager::hasGlyph] *)
Definition hasGlyph (format : GrMaskFormat) (glyph : GrGlyph) : M bool :=
  do a <- getAtlas format;
  emit (EvHasID a (fAtlasLocator glyph));;
  call (fun w => (GrDrawOpAtlas_hasID a (fAtlasLocator glyph) w, w)).

(** [GrAtlasManager::addToAtlas]; the result pairs the error code with the
    value left in [*atlasLocator]. *)
Definition addToAtlas (format : GrMaskFormat) (width height : Z)
    (image : list Z) (atlasLocator : AtlasLocator)
    : M (ErrorCode * AtlasLocator) :=
  do a <- getAtlas format;
  emit (EvAddToAtlas a width height);;
  call (fun w =>
          let '(code, loc, w') :=
            GrDrawOpAtlas_addToAtlas a width height image atlasLocator w in
          ((code, loc), w')).

(** [GrAtlasManager::addGlyphToBulkAndSetUseToken]; the updater is the
    caller's object, so its new state is the result. *)
Definition addGlyphToBulkAndSetUseToken (updater : BulkUseTokenUpdater)
    (format : GrMaskFormat) (glyph : GrGlyph) (token : nat)
    : M BulkUseTokenUpdater :=
  let '(added, updater') := BulkUseTokenUpdater_add updater (fAtlasLocator glyph) in
  if added then
    do a <- getAtlas format;
    emit (EvSetLastUseToken a (fAtlasLocator glyph) token);;
    call (fun w => (tt, GrDrawOpAtlas_setLastUseToken a (fAtlasLocator glyph) token w));;
    ret updater'
  else ret updater'.

(** A bulk list: the same updater and token over a list of glyphs. *)
Fixpoint addGlyphsToBulk (updater : BulkUseTokenUpdater)
    (glyphs : list (GrMaskFormat * GrGlyph)) (token : nat)
    : M BulkUseTokenUpdater :=
  match glyphs with
  | [] => ret updater
  | (format, glyph) :: rest =>
      do updater' <- addGlyphToBulkAndSetUseToken updater format glyph token;
      addGlyphsToBulk updater' rest token
  end.

(** The public operations, for statements about sequences of calls. *)
Inductive Op : Type :=
  | OpFreeAll
  | OpSetAtlasDimensionsToMinimum_ForTesting
  | OpInitAtlas (format : GrMaskFormat)
  | OpHasGlyph (format : GrMaskFormat) (glyph : GrGlyph)
  | OpAddToAtlas (format : GrMaskFormat) (width height : Z) (image : list Z)
                 (atlasLocator : AtlasLocator)
  | OpAddGlyphToBulk (updater : BulkUseTokenUpdater) (format : GrMaskFormat)
                     (glyph : GrGlyph) (token : nat).

Definition run_op (op : Op) : M unit :=
  match op with
  | OpFreeAll => freeAll
  | OpSetAtlasDimensionsToMinimum_ForTesting => setAtlasDimensionsToMinimum_ForTesting
  | OpInitAtlas f => initAtlas f;; ret tt
  | OpHasGlyph f g => hasGlyph f g;; ret tt
  | OpAddToAtlas f w h im l => addToAtlas f w h im l;; ret tt
  | OpAddGlyphToBulk u f g tok => addGlyphToBulkAndSetUseToken u f g tok;; ret tt
  end.

Fixpoint run_ops (ops : list Op) : M unit :=
  match ops with
  | [] => ret tt
  | op :: rest => run_op op;; run_ops rest
  end.

Definition is_clearing (op : Op) : bool :=
  match op with
  | OpFreeAll | OpSetAtlasDimensionsToMinimum_ForTesting => true
  | _ => false
  end.

(** The atlas in the slot of a format. *)
Definition atlasOf (s : Sys) (format : GrMaskFormat) : option Atlas :=
  mjoin (fAtlases (manager s) !! MaskFormatToAtlasIndex format).

(** The array has its declared size and every format indexes into it. *)
Definition well_formed (s : Sys) : Prop :=
  length (fAtlases (manager s)) = kMaskFormatCount.

Definition makeCalls (tr : list Event) : list nat :=
  omap (fun e => match e with EvMake i _ => Some i | _ => None end) tr.

(** *** Notions the statements about the manager use *)

Definition clear_slots (l : list (option Atlas)) (idxs : list nat)
    : list (option Atlas) :=
  foldl (fun acc i => <[i := None]> acc) l idxs.

(** The atlases the slots hold, in the order of the slots. *)
Definition heldAtlases (l : list (option Atlas)) : list Atlas := omap id l.

(** The world after the atlases of a list have been deleted, one by one. *)
Definition deleteAll (atlases : list Atlas) (w : World) : World :=
  foldl (fun w a => GrDrawOpAtlas_delete a w) w atlases.

(** The state [freeAll] leaves: every slot null, and each atlas a slot held
    deleted. *)
Definition cleared (s : Sys) : Sys :=
  MakeSys (with_atlases (manager s) (replicate kMaskFormatCount None))
          (deleteAll (heldAtlases (fAtlases (manager s))) (world s))
          (trace s ++ (EvDelete <$> heldAtlases (fAtlases (manager s)))).

(** The state [initAtlas] leaves when it had to construct: the slot holds
    what the factory returned, the world is the factory's, and the call is on
    the trace. *)
Definition constructed (s : Sys) (format : GrMaskFormat) : Sys :=
  let args := makeArgs (manager s) format in
  let index := MaskFormatToAtlasIndex format in
  MakeSys (with_atlases (manager s)
             (<[index := fst (GrDrawOpAtlas_Make args (world s))]>
                (fAtlases (manager s))))
          (snd (GrDrawOpAtlas_Make args (world s)))
          (trace s ++ [EvMake index args]).

(** [keeps s s']: from [s] to [s'] no slot that held an atlas lost or changed
    it, and the factory was called for empty slots only. *)
Definition keeps (s s' : Sys) : Prop :=
  length (fAtlases (manager s')) = length (fAtlases (manager s))
  /\ (forall (i : nat) (a : Atlas),
        fAtlases (manager s) !! i = Some (Some a) ->
        fAtlases (manager s') !! i = Some (Some a))
  /\ exists tr : list Event,
       trace s' = trace s ++ tr
       /\ forall i : nat, i ∈ makeCalls tr -> fAtlases (manager s) !! i = Some None.

(** The calls of a bulk list in which [add] answers true. *)
Fixpoint marked (u : BulkUseTokenUpdater) (glyphs : list (GrMaskFormat * GrGlyph))
    : list (GrMaskFormat * GrGlyph) :=
  match glyphs with
  | [] => []
  | (f, g) :: rest =>
      let '(added, u') := BulkUseTokenUpdater_add u (fAtlasLocator g) in
      if added then (f, g) :: marked u' rest else marked u' rest
  end.

Definition glyphPlot (fg : GrMaskFormat * GrGlyph) : nat * nat :=
  plotKey (fAtlasLocator (snd fg)).

(** The [setLastUseToken] call that marking the glyph [fg] makes: on the
    atlas of the glyph's format, with the glyph's locator and the token. *)
Definition callOf (s : Sys) (token : nat) (fg : GrMaskFormat * GrGlyph)
    : option (Atlas * AtlasLocator * nat) :=
  match atlasOf s (fst fg) with
  | Some a => Some (a, fAtlasLocator (snd fg), token)
  | None => None
  end.

(** What a [setLastUseToken] call does to the world, and how the trace
    records it. *)
Definition applyCall (w : World) (c : Atlas * AtlasLocator * nat) : World :=
  GrDrawOpAtlas_setLastUseToken (fst (fst c)) (snd (fst c)) (snd c) w.

Definition callEvent (c : Atlas * AtlasLocator * nat) : Event :=
  EvSetLastUseToken (fst (fst c)) (snd (fst c)) (snd c).

(** The plot a call marks: the atlas, and the page and plot index in it. *)
Definition callPlot (c : Atlas * AtlasLocator * nat) : Atlas * (nat * nat) :=
  (fst (fst c), plotKey (snd (fst c))).

End Manager.

End GrAtlasManager.

(** ** A concrete set of collaborators

    Three mask formats, atlases named by consecutive numbers, and a factory
    that follows a script: each call of [GrDrawOpAtlas::Make] consumes one
    entry, [true] for a texture that could be created and [false] for one
    that could not.  The theorems below are instantiated with it. *)

Module Fixture.

Import GrDrawOpAtlas GrAtlasManager.

Inductive Format : Type := kA8 | kA565 | kARGB.

Definition Format_index (f : Format) : nat :=
  match f with kA8 => 0 | kA565 => 1 | kARGB => 2 end.

Definition ScriptedWorld : Type := list bool * nat.

Definition scriptedMake (args : MakeArgs Format Format) (w : ScriptedWorld)
    : option nat * ScriptedWorld :=
  match fst w with
  | true :: rest => (Some (snd w), (rest, S (snd w)))
  | false :: rest => (None, (rest, snd w))
  | [] => (None, ([], snd w))
  end.

#[export] Instance collaborators : Collaborators := {|
  GrMaskFormat := Format;
  kMaskFormatCount := 3;
  MaskFormatToAtlasIndex := Format_index;
  GrColorType := Format;
  GrMaskFormatToColorType := fun f => f;
  GrBackendFormat := Format;
  getDefaultBackendFormat := fun c => c;
  GrDrawOpAtlasConfig := Z;
  GrDrawOpAtlasConfig_default := 1;
  atlasDimensions := fun c _ => MakeISize (2 * c) (2 * c);
  plotDimensions := fun c _ => MakeISize c c;
  Atlas := nat;
  World := ScriptedWorld;
  GrDrawOpAtlas_Make := scriptedMake;
  GrDrawOpAtlas_hasID := fun _ _ _ => true;
  GrDrawOpAtlas_addToAtlas := fun _ _ _ _ l w => (kSucceeded, l, w);
  GrDrawOpAtlas_setLastUseToken := fun _ _ _ w => w;
  GrDrawOpAtlas_delete := fun _ w => w
|}.

Definition sys (slots : list (option nat)) (script : list bool) (next : nat) : Sys :=
  MakeSys (MakeManager true slots 256) (script, next) [].

(** A plot packer that puts one rectangle in each plot. *)
#[export] Instance onePerPlot : RectPacker := {|
  Packing := bool;
  emptyPacking := false;
  tryPack := fun used w h =>
    if used then None else Some (MakePlotRect 0 0 w h, true)
|}.

Definition atlas16 : GrDrawOpAtlas.t :=
  MakeAtlas 16 16 4 2 [newPage 4] [0%nat] [].

Definition glyphAt (page plot : nat) : GrGlyph :=
  MakeGlyph (MakeLocator page plot (MakePlotRect 0 0 8 8) 0).

End Fixture.

(** ** Collaborators that keep a ledger

    The same three formats; the world is the list of what the atlases were
    asked to do, so that a deletion or a [setLastUseToken] can be read off
    the state an operation leaves.  The factory always succeeds and names
    the new atlas by the length of the ledger. *)

Module Ledger.

Import GrDrawOpAtlas GrAtlasManager.

Inductive Entry : Type :=
  | Made (a : nat)
  | Deleted (a : nat)
  | LastUse (a : nat) (page plot token : nat).

#[export] Instance collaborators : Collaborators := {|
  GrMaskFormat := Fixture.Format;
  kMaskFormatCount := 3;
  MaskFormatToAtlasIndex := Fixture.Format_index;
  GrColorType := Fixture.Format;
  GrMaskFormatToColorType := fun f => f;
  GrBackendFormat := Fixture.Format;
  getDefaultBackendFormat := fun c => c;
  GrDrawOpAtlasConfig := Z;
  GrDrawOpAtlasConfig_default := 1;
  atlasDimensions := fun c _ => MakeISize (2 * c) (2 * c);
  plotDimensions := fun c _ => MakeISize c c;
  Atlas := nat;
  World := list Entry;
  GrDrawOpAtlas_Make := fun _ w => (Some (length w), w ++ [Made (length w)]);
  GrDrawOpAtlas_hasID := fun _ _ _ => true;
  GrDrawOpAtlas_addToAtlas := fun _ _ _ _ l w => (kSucceeded, l, w);
  GrDrawOpAtlas_setLastUseToken := fun a l token w =>
    w ++ [LastUse a (pageIndex l) (plotIndex l) token];
  GrDrawOpAtlas_delete := fun a w => w ++ [Deleted a]
|}.

(** A manager with the given slots, an empty ledger and an empty trace. *)
Definition sys (slots : list (option nat)) : Sys :=
  MakeSys (MakeManager true slots 256) [] [].

End Ledger.

(** ** Further notions

    Used by the statements about the code beyond the claims. *)

(** The value class of a float under [==]: the two zeros are one. *)
Definition SkScalar_norm (x : SkScalar.t) : SkScalar.t :=
  match x with
  | S754_zero _ => S754_zero false
  | _ => x
  end.

(** A float that is no NaN and, when finite and non-zero, has an exponent
    binary32 can hold. *)
Definition SkScalar_wellformed (x : SkScalar.t) : Prop :=
  match x with
  | S754_nan => False
  | S754_finite _ _ e => -149 <= e
  | _ => True
  end.

(** The two edges of an axis are finite and lie, in order, between the
    integer bounds [lo] and [hi]. *)
Definition axis_within (lo hi : Z) (flo fhi : SkScalar.t) : Prop :=
  exists vlo vhi : Q,
    SkScalar.to_Q flo = Some vlo /\ SkScalar.to_Q fhi = Some vhi
    /\ (inject_Z lo <= vlo)%Q /\ (vlo <= vhi)%Q /\ (vhi <= inject_Z hi)%Q.

Section ManagerNotions.
Import GrAtlasManager.
Context {C : Collaborators}.

(** The array has kept its length and the multitexturing flag its value. *)
Definition same_shape (s s' : Sys) : Prop :=
  length (fAtlases (manager s')) = length (fAtlases (manager s))
  /\ fAllowMultitexturing (manager s') = fAllowMultitexturing (manager s).

End ManagerNotions.

(** ** GrMeshTest: the checkerboard of boxes and its draws

    [tests/GrMeshTest.cpp].  The GPU calls of the test are collaborators; a
    draw is kept as the record of its arguments. *)

Module GrMeshTest.

Definition kBoxSize : Z := 2.
Definition kBoxCountY : Z := 8.
Definition kBoxCountX : Z := 8.
Definition kBoxCount : Z := kBoxCountY * kBoxCountX.

Definition kImageWidth : Z := kBoxCountY * kBoxSize.
Definition kImageHeight : Z := kBoxCountX * kBoxSize.

Definition kIndexPatternRepeatCount : Z := 3.
Definition kIndexPattern : list Z := [0; 1; 2; 1; 2; 3].

(** [GrColorPackRGBA] is declared outside the sources at hand. *)
Class ColorPacking : Type := {
  GrColorPackRGBA : Z -> Z -> Z -> Z -> Z
}.

Record Box : Type := MakeBox {
  fX : SkScalar.t;
  fY : SkScalar.t;
  fColor : Z
}.

(** [for (int i = start; ...; ++i)], [count] iterations. *)
Fixpoint for_range {S : Type} (count : nat) (i : Z) (body : Z -> S -> S) (s : S) : S :=
  match count with
  | O => s
  | S n => for_range n (i + 1) body (body i s)
  end.

(** [for (int i = 0; i < n; ++i)] *)
Definition for_below {S : Type} (n : Z) (body : Z -> S -> S) (s : S) : S :=
  for_range (Z.to_nat n) 0 body s.

(** [a[i]] on an array or [SkTArray] that holds the index. *)
Definition at_index {A : Type} (d : A) (l : list A) (i : Z) : A :=
  nth (Z.to_nat i) l d.

(** The three channels [int rgb[3]] of the box colour, from [c = y + x]. *)
Definition rgbOf (c : Z) : list Z :=
  [Z.land (- (Z.land c 1)) 255;
   Z.land (- (Z.land (Z.shiftr c 1) 1)) 255;
   Z.land (- (Z.land (Z.shiftr c 2) 1)) 255].

Section Setup.
Context {packing : ColorPacking}.

Definition makeBox (x y : Z) : Box :=
  let c := y + x in
  let rgb := rgbOf c in
  MakeBox (SkScalar.of_int (x * kBoxSize))
          (SkScalar.of_int (y * kBoxSize))
          (GrColorPackRGBA (at_index 0 rgb 0) (at_index 0 rgb 1) (at_index 0 rgb 2) 255).

(** [boxVertices[i]] *)
Definition boxVertex (box : Box) (i : Z) : Box :=
  MakeBox (SkScalar.add (fX box) (SkScalar.of_int (Z.quot i 2 * kBoxSize)))
          (SkScalar.add (fY box) (SkScalar.of_int (Z.rem i 2 * kBoxSize)))
          (fColor box).

(** The setup loops: [boxes] and [vertexData] after them. *)
Definition setup : list Box * list (list Box) :=
  for_below kBoxCountY
    (fun y st =>
       for_below kBoxCountX
         (fun x st =>
            let box := makeBox x y in
            (fst st ++ [box],
             snd st ++ [for_below 4 (fun i verts => verts ++ [boxVertex box i]) []]))
         st)
    ([], []).

Definition boxes : list Box := fst setup.
Definition vertexData : list (list Box) := snd setup.

Definition noBox : Box := MakeBox SkScalar.zero SkScalar.zero 0.

(** The vertex buffer of the "draw" test: six vertices a box, by the index
    pattern. *)
Definition expandedVertexData (vertexData : list (list Box)) : list Box :=
  for_below kBoxCount
    (fun i acc =>
       for_below 6
         (fun j acc =>
            acc ++ [at_index noBox (at_index [] vertexData i)
                             (at_index 0 kIndexPattern j)])
         acc)
    [].

End Setup.

(** [pass->draw(vertexCount, baseVertex)] *)
Record Draw : Type := MakeDraw {
  drawVertexCount : Z;
  drawBaseVertex : Z
}.

(** The execute step of the "draw" test: one draw a line of boxes. *)
Definition drawCalls : list Draw :=
  for_below kBoxCountY
    (fun y calls => calls ++ [MakeDraw (kBoxCountX * 6) (y * kBoxCountX * 6)])
    [].

(** [pass->drawIndexed(indexCount, baseIndex, minIndexValue, maxIndexValue,
    baseVertex)] *)
Record DrawIndexed : Type := MakeDrawIndexed {
  indexCount : Z;
  baseIndex : Z;
  minIndexValue : Z;
  maxIndexValue : Z;
  baseVertex : Z
}.

(** How a run over C++ [int]s ends: with a value, in a signed overflow,
    which is undefined behaviour, or with the fuel of the model spent. *)
Inductive Run (A : Type) : Type :=
  | Returns (a : A)
  | Overflows
  | OutOfFuel.
Arguments Returns {A} a.
Arguments Overflows {A}.
Arguments OutOfFuel {A}.

(** The value is one an [int] holds. *)
Definition fits_int (z : Z) : bool := (- 2 ^ 31 <=? z) && (z <? 2 ^ 31).

(** The [while (i < kBoxCount)] loop of the "drawIndexed" test, from the
    state [(baseRepetition, i)], for a number [boxCount] of boxes.  The loop
    variables and the arguments of the draw are [int]s: an iteration in
    which one of the [int] expressions it evaluates leaves the range of
    [int] overflows. *)
Fixpoint drawIndexedLoop (fuel : nat) (boxCount baseRepetition i : Z)
    : Run (list DrawIndexed) :=
  if i <? boxCount then
    match fuel with
    | O => OutOfFuel
    | S fuel' =>
        let repetitionCount := Z.min (3 - baseRepetition) (boxCount - i) in
        let call :=
          MakeDrawIndexed (repetitionCount * 6) (baseRepetition * 6)
                          (baseRepetition * 4)
                          ((baseRepetition + repetitionCount) * 4 - 1)
                          ((i - baseRepetition) * 4) in
        if forallb fits_int
             [3 - baseRepetition; boxCount - i;
              repetitionCount * 6; baseRepetition * 6; baseRepetition * 4;
              baseRepetition + repetitionCount;
              (baseRepetition + repetitionCount) * 4;
              (baseRepetition + repetitionCount) * 4 - 1;
              i - baseRepetition; (i - baseRepetition) * 4;
              baseRepetition + 1; i + repetitionCount]
        then
          match drawIndexedLoop fuel' boxCount
                  (Z.rem (baseRepetition + 1) 3) (i + repetitionCount) with
          | Returns calls => Returns (call :: calls)
          | Overflows => Overflows
          | OutOfFuel => OutOfFuel
          end
        else Overflows
    end
  else Returns [].

Definition drawIndexedCalls : Run (list DrawIndexed) :=
  drawIndexedLoop (Z.to_nat kBoxCount) kBoxCount 0 0.

(** [covers i n calls]: the indexed draws [calls] draw the boxes [i], ...,
    [n - 1] in order, one to three boxes a draw, each draw reading indices
    inside the patterned index buffer and exactly the vertices of its
    boxes. *)
Inductive covers : Z -> Z -> list DrawIndexed -> Prop :=
  | covers_done : forall n, covers n n []
  | covers_draw : forall i n rep call calls,
      1 <= rep <= 3 ->
      indexCount call = 6 * rep ->
      0 <= baseIndex call ->
      baseIndex call + indexCount call <= 6 * kIndexPatternRepeatCount ->
      4 * baseIndex call = 6 * minIndexValue call ->
      0 <= baseVertex call ->
      baseVertex call + minIndexValue call = 4 * i ->
      baseVertex call + maxIndexValue call = 4 * (i + rep) - 1 ->
      i + rep <= n ->
      covers (i + rep) n calls ->
      covers i n (call :: calls).

End GrMeshTest.

(** The two triangles of a box, as the index pattern orders its corners. *)
Definition boxTriangles `{GrMeshTest.ColorPacking} (x y : Z) : list GrMeshTest.Box :=
  map (fun j => GrMeshTest.boxVertex (GrMeshTest.makeBox x y) j) GrMeshTest.kIndexPattern.

(** A packing of the four channels into the bytes of a word, lowest byte
    first, to instantiate the statements with. *)
#[export] Instance bytePacking : GrMeshTest.ColorPacking := {|
  GrMeshTest.GrColorPackRGBA := fun r g b a =>
    Z.lor (Z.lor r (Z.shiftl g 8)) (Z.lor (Z.shiftl b 16) (Z.shiftl a 24))
|}.

(** * Part II: the properties *)

(** ** Machine integers and modes *)

Lemma wrap_s32_small z : is_int32 z -> wrap_s32 z = z.
Proof.
  unfold is_int32, wrap_s32. intros Hz.
  rewrite Z.mod_small; lia.
Qed.

Section ModeFacts.
Import GrTextureDomain.

Lemma Mode_value_inj a b : Mode_value a = Mode_value b -> a = b.
Proof. destruct a, b; simpl; intros H; first [reflexivity | discriminate H]. Qed.

Lemma Mode_eqb_eq a b : Mode_eqb a b = true <-> a = b.
Proof.
  unfold Mode_eqb. rewrite Z.eqb_eq. split.
  - apply Mode_value_inj.
  - intros ->. reflexivity.
Qed.

Lemma Mode_eqb_refl a : Mode_eqb a a = true.
Proof. apply Mode_eqb_eq. reflexivity. Qed.

Lemma Mode_eqb_neq a b : Mode_eqb a b = false <-> a <> b.
Proof.
  rewrite <- Mode_eqb_eq. destruct (Mode_eqb a b); split; congruence.
Qed.

Lemma Mode_value_range m : 0 <= Mode_value m < kModeCount.
Proof. destruct m; cbv; intuition discriminate. Qed.

End ModeFacts.

(** ** The domain key *)

Section DomainKey.
Import GrTextureDomain GrTextureDomain.GLDomain.

(** The key is the X mode in bits 0..2 and the Y mode in bits 3..5; nothing
    is lost in the conversion to [uint32_t]. *)
Lemma DomainKey_value d :
  DomainKey d = Mode_value (fModeX d) + 8 * Mode_value (fModeY d).
Proof.
  unfold DomainKey, modeX, modeY.
  destruct (fModeX d), (fModeY d); reflexivity.
Qed.

Lemma DomainKey_static_assert_holds : DomainKey_static_assert = true.
Proof. reflexivity. Qed.

(** C1.  The doc comment of [DomainKey] limits the returned key to the lower
    [kDomainKeyBits] = 4 bits, that is to at most 15.  The code does not:
    with [kModeBits] = 3 the Y mode starts at bit 3, so a domain whose Y mode
    is [kDecal_Mode] already has key 16, whatever its rectangle and index,
    and the largest key, for mirror-repeat on both axes, is 36. *)
Theorem DomainKey_exceeds_kDomainKeyBits :
  forall (r : SkRect) (index : Z),
    DomainKey (Build r kIgnore_Mode kDecal_Mode index) = 16
    /\ ~ fits_in_key_bits (DomainKey (Build r kIgnore_Mode kDecal_Mode index))
    /\ DomainKey (Build r kMirrorRepeat_Mode kMirrorRepeat_Mode index) = 36.
Proof.
  intros r index. split; [reflexivity | split; [| reflexivity]].
  rewrite DomainKey_value. unfold fits_in_key_bits, kDomainKeyBits. simpl. lia.
Qed.

(** C2.  [DomainKey] is injective on the 25 mode pairs and depends on nothing
    but the two modes: two domains have the same key exactly when they have
    the same X mode and the same Y mode, whatever their rectangles and
    indices. *)
Theorem DomainKey_injective :
  forall a b : GrTextureDomain.t,
    DomainKey a = DomainKey b <-> (modeX a = modeX b /\ modeY a = modeY b).
Proof.
  intros a b. rewrite !DomainKey_value. unfold modeX, modeY. split.
  - intros H.
    pose proof (Mode_value_range (fModeX a)) as Hxa.
    pose proof (Mode_value_range (fModeX b)) as Hxb.
    pose proof (Mode_value_range (fModeY a)) as Hya.
    pose proof (Mode_value_range (fModeY b)) as Hyb.
    unfold kModeCount in *. simpl in Hxa, Hxb, Hya, Hyb.
    split; apply Mode_value_inj; lia.
  - intros [-> ->]. reflexivity.
Qed.

End DomainKey.

(** ** Equality of domains *)

Section DomainEquality.
Import GrTextureDomain.

Lemma SkScalar_eqb_refl x : SkScalar.is_nan x = false -> SkScalar.eqb x x = true.
Proof.
  unfold SkScalar.eqb, SFeqb.
  destruct x as [s | s | | s m e]; simpl; try discriminate; intros _.
  - reflexivity.
  - destruct s; reflexivity.
  - rewrite Z.compare_refl.
    assert (Hm : Pos.compare_cont Eq m m = Eq) by apply Pos.compare_cont_refl.
    rewrite Hm. destruct s; reflexivity.
Qed.

Lemma SkScalar_eqb_nan_l y : SkScalar.eqb S754_nan y = false.
Proof. reflexivity. Qed.

Lemma operator_eq_true_iff a b :
  operator_eq a b = true <->
  fModeX a = fModeX b /\ fModeY a = fModeY b /\
  (fModeX a <> kIgnore_Mode ->
     edges_equal (fLeft (fDomain a)) (fLeft (fDomain b)) /\
     edges_equal (fRight (fDomain a)) (fRight (fDomain b))) /\
  (fModeY a <> kIgnore_Mode ->
     edges_equal (fTop (fDomain a)) (fTop (fDomain b)) /\
     edges_equal (fBottom (fDomain a)) (fBottom (fDomain b))).
Proof.
  unfold operator_eq, edges_equal.
  rewrite !andb_true_iff, !orb_true_iff, !andb_true_iff, !Mode_eqb_eq.
  split.
  - intros [[[Hx Hy] HX] HY]. repeat split; try assumption.
    + destruct HX as [HX | HX]; [congruence | apply HX].
    + destruct HX as [HX | HX]; [congruence | apply HX].
    + destruct HY as [HY | HY]; [congruence | apply HY].
    + destruct HY as [HY | HY]; [congruence | apply HY].
  - intros (Hx & Hy & HX & HY). repeat split; try assumption.
    + destruct (fModeX a); try (right; apply HX; discriminate). left; reflexivity.
    + destruct (fModeY a); try (right; apply HY; discriminate). left; reflexivity.
Qed.

(** C4, as the code has it.  [a == b] holds exactly when the X modes match,
    the Y modes match, and on each axis whose mode is not ignore the two
    edges of that axis compare equal as floats.  So
    [TextureDomain({0,0,1,1}, ignore, clamp)] equals
    [TextureDomain({5,0,6,1}, ignore, clamp)], which differs in the X bounds
    only, and does not equal [TextureDomain({5,5,6,6}, ignore, clamp)], whose
    Y bounds differ. *)
Theorem operator_eq_characterisation :
  (forall a b : GrTextureDomain.t,
     operator_eq a b = true <->
     fModeX a = fModeX b /\ fModeY a = fModeY b /\
     (fModeX a <> kIgnore_Mode ->
        edges_equal (fLeft (fDomain a)) (fLeft (fDomain b)) /\
        edges_equal (fRight (fDomain a)) (fRight (fDomain b))) /\
     (fModeY a <> kIgnore_Mode ->
        edges_equal (fTop (fDomain a)) (fTop (fDomain b)) /\
        edges_equal (fBottom (fDomain a)) (fBottom (fDomain b))))
  /\ operator_eq (TextureDomain (SkRect_of_ints 0 0 1 1) kIgnore_Mode kClamp_Mode)
                 (TextureDomain (SkRect_of_ints 5 0 6 1) kIgnore_Mode kClamp_Mode)
     = true
  /\ operator_eq (TextureDomain (SkRect_of_ints 0 0 1 1) kIgnore_Mode kClamp_Mode)
                 (TextureDomain (SkRect_of_ints 5 5 6 6) kIgnore_Mode kClamp_Mode)
     = false.
Proof.
  split; [exact operator_eq_true_iff | split; vm_compute; reflexivity].
Qed.

(** C4, as the spec words its example: the two domains
    [({0,0,1,1}, ignore, clamp)] and [({5,5,6,6}, ignore, clamp)] differ in
    their top and bottom edges, which the clamp mode of the Y axis makes
    count, so [==] is false on them. *)
Lemma operator_eq_spec_example_fails :
  operator_eq (TextureDomain (SkRect_of_ints 0 0 1 1) kIgnore_Mode kClamp_Mode)
              (TextureDomain (SkRect_of_ints 5 5 6 6) kIgnore_Mode kClamp_Mode)
  <> true.
Proof. vm_compute. discriminate. Qed.

(** C10, as the code has it.  [operator==] never reads [fIndex]: replacing
    the indices of two domains does not change the result.  Two domains with
    the same modes and the same rectangle, in which no edge of a non-ignored
    axis is a NaN, are equal whatever their indices. *)
Theorem operator_eq_ignores_index :
  forall (r : SkRect) (mx my : Mode) (i j : Z),
    compared_edges_not_nan r mx my ->
    operator_eq (Build r mx my i) (Build r mx my j) = true
    /\ (forall (a b : GrTextureDomain.t) (i' j' : Z),
          operator_eq (with_index a i') (with_index b j') = operator_eq a b).
Proof.
  intros r mx my i j [HX HY]. split; [| reflexivity].
  apply operator_eq_true_iff. simpl. unfold edges_equal.
  repeat split; try reflexivity.
  - apply SkScalar_eqb_refl, HX. assumption.
  - apply SkScalar_eqb_refl, HX. assumption.
  - apply SkScalar_eqb_refl, HY. assumption.
  - apply SkScalar_eqb_refl, HY. assumption.
Qed.

Lemma operator_eq_ignores_index_witness :
  compared_edges_not_nan (SkRect_of_ints 0 0 4 4) kClamp_Mode kDecal_Mode
  /\ operator_eq (Build (SkRect_of_ints 0 0 4 4) kClamp_Mode kDecal_Mode 0)
                 (Build (SkRect_of_ints 0 0 4 4) kClamp_Mode kDecal_Mode 1) = true.
Proof.
  assert (H : compared_edges_not_nan (SkRect_of_ints 0 0 4 4) kClamp_Mode kDecal_Mode).
  { split; intros _; split; reflexivity. }
  split; [exact H |].
  exact (proj1 (operator_eq_ignores_index (SkRect_of_ints 0 0 4 4)
                  kClamp_Mode kDecal_Mode 0 1 H)).
Defined.

(** C10, as stated: a rectangle with a NaN edge on a clamped axis.  The two
    domains differ in their index only, and [==] is false on them, because a
    NaN compares unequal to itself. *)
Lemma operator_eq_same_rect_nan :
  operator_eq
    (Build (MakeLTRB S754_nan SkScalar.zero SkScalar.zero SkScalar.zero)
           kClamp_Mode kClamp_Mode 0)
    (Build (MakeLTRB S754_nan SkScalar.zero SkScalar.zero SkScalar.zero)
           kClamp_Mode kClamp_Mode 1)
  <> true.
Proof. vm_compute. discriminate. Qed.

End DomainEquality.

(** ** Binary32 arithmetic on texel coordinates *)

Section FloatFacts.
Import SkScalar.

(** *** Shifts of positives *)

Lemma shl_value m n : Z.pos (shl m n) = Z.pos m * 2 ^ Z.of_nat n.
Proof.
  induction n as [| n IH].
  - simpl. lia.
  - unfold shl in *. rewrite Nat.iter_succ, Pos2Z.inj_xO, IH.
    rewrite Nat2Z.inj_succ, Z.pow_succ_r by lia. lia.
Qed.

Lemma shl_add m a b : shl (shl m a) b = shl m (a + b).
Proof. unfold shl. rewrite Nat.add_comm, Nat.iter_add. reflexivity. Qed.

Lemma Pos_iter_shl m p : Pos.iter xO m p = shl m (Pos.to_nat p).
Proof.
  unfold shl. rewrite Pos2Nat.inj_iter.
  induction (Pos.to_nat p) as [| n IH]; simpl; congruence.
Qed.

Lemma iter_pos_nat {A} (f : A -> A) (p : positive) (x : A) :
  SpecFloat.iter_pos f p x = Nat.iter (Pos.to_nat p) f x.
Proof.
  revert x. induction p as [p IH | p IH |]; intros x; cbn [SpecFloat.iter_pos].
  - rewrite !IH, Pos2Nat.inj_xI.
    replace (S (2 * Pos.to_nat p)) with (Pos.to_nat p + S (Pos.to_nat p))%nat by lia.
    rewrite Nat.iter_add, Nat.iter_succ_r. reflexivity.
  - rewrite !IH, Pos2Nat.inj_xO.
    replace (2 * Pos.to_nat p)%nat with (Pos.to_nat p + Pos.to_nat p)%nat by lia.
    rewrite Nat.iter_add. reflexivity.
  - reflexivity.
Qed.

(** *** The number of binary digits *)

Lemma pow2_pred d : 0 < d -> 2 ^ d = 2 * 2 ^ (d - 1).
Proof.
  intros Hd. rewrite <- Z.pow_succ_r by lia. f_equal. lia.
Qed.

Lemma digits2_pos_bounds m :
  2 ^ (Z.pos (digits2_pos m) - 1) <= Z.pos m < 2 ^ Z.pos (digits2_pos m).
Proof.
  induction m as [m IH | m IH |]; cbn [digits2_pos].
  - rewrite Pos2Z.inj_succ, (Pos2Z.inj_xI m).
    replace (Z.succ (Z.pos (digits2_pos m)) - 1) with (Z.pos (digits2_pos m)) by lia.
    rewrite Z.pow_succ_r by lia.
    rewrite (pow2_pred (Z.pos (digits2_pos m))) in * by lia. lia.
  - rewrite Pos2Z.inj_succ, (Pos2Z.inj_xO m).
    replace (Z.succ (Z.pos (digits2_pos m)) - 1) with (Z.pos (digits2_pos m)) by lia.
    rewrite Z.pow_succ_r by lia.
    rewrite (pow2_pred (Z.pos (digits2_pos m))) in * by lia. lia.
  - simpl. lia.
Qed.

Lemma digits2_pos_unique m d :
  2 ^ (d - 1) <= Z.pos m < 2 ^ d -> Z.pos (digits2_pos m) = d.
Proof.
  intros [Hlo Hhi]. pose proof (digits2_pos_bounds m) as [Hlo' Hhi'].
  assert (0 < d).
  { destruct (Z_lt_le_dec 0 d); [assumption |].
    assert (2 ^ d <= 2 ^ 0) by (apply Z.pow_le_mono_r; lia). simpl in *. lia. }
  destruct (Z_lt_le_dec (Z.pos (digits2_pos m)) d) as [Hlt | Hge].
  - assert (2 ^ Z.pos (digits2_pos m) <= 2 ^ (d - 1)) by (apply Z.pow_le_mono_r; lia). lia.
  - destruct (Z_lt_le_dec d (Z.pos (digits2_pos m))) as [Hlt | Hle]; [| lia].
    assert (2 ^ d <= 2 ^ (Z.pos (digits2_pos m) - 1)) by (apply Z.pow_le_mono_r; lia). lia.
Qed.

Lemma digits2_pos_shl m n :
  Z.pos (digits2_pos (shl m n)) = Z.pos (digits2_pos m) + Z.of_nat n.
Proof.
  apply digits2_pos_unique. rewrite shl_value.
  pose proof (digits2_pos_bounds m) as [Hlo Hhi].
  replace (Z.pos (digits2_pos m) + Z.of_nat n - 1)
    with ((Z.pos (digits2_pos m) - 1) + Z.of_nat n) by lia.
  rewrite !Z.pow_add_r by lia.
  assert (0 < 2 ^ Z.of_nat n) by (apply Z.pow_pos_nonneg; lia).
  nia.
Qed.


(** *** Shifting right without losing bits *)

Lemma shr_1_exact q :
  shr_1 {| shr_m := Z.pos q~0; shr_r := false; shr_s := false |}
  = {| shr_m := Z.pos q; shr_r := false; shr_s := false |}.
Proof. reflexivity. Qed.

Lemma shr_iter_exact q n :
  Nat.iter n shr_1 {| shr_m := Z.pos (shl q n); shr_r := false; shr_s := false |}
  = {| shr_m := Z.pos q; shr_r := false; shr_s := false |}.
Proof.
  induction n as [| n IH].
  - reflexivity.
  - rewrite Nat.iter_succ_r. unfold shl. rewrite Nat.iter_succ.
    rewrite shr_1_exact. exact IH.
Qed.

(** *** Rounding a value that is representable *)

Lemma fexp32_eq e : fexp32 e = Z.max (e - 24) (-149).
Proof. reflexivity. Qed.

Lemma shr_fexp_noop m e l :
  fexp32 (Zdigits2 m + e) = e ->
  shr_fexp 24 128 m e l = (shr_record_of_loc m l, e).
Proof.
  intros H. unfold shr_fexp. fold (fexp32 (Zdigits2 m + e)).
  rewrite H, Z.sub_diag. reflexivity.
Qed.

Lemma binary_round_aux_exact s mx ex mz c :
  shr_fexp 24 128 mx ex loc_Exact
  = ({| shr_m := Z.pos mz; shr_r := false; shr_s := false |}, c) ->
  Z.pos (digits2_pos mz) = 24 ->
  -149 <= c <= 104 ->
  binary_round_aux 24 128 s mx ex loc_Exact = S754_finite s mz c.
Proof.
  intros Hshr Hd Hc. unfold binary_round_aux. rewrite Hshr.
  cbn [shr_m loc_of_shr_record round_nearest_even].
  rewrite shr_fexp_noop.
  - cbn [shr_record_of_loc shr_m].
    assert (Hle : (c <=? 128 - 24) = true) by (apply Z.leb_le; lia).
    rewrite Hle. reflexivity.
  - cbn [Zdigits2]. rewrite Hd, fexp32_eq. lia.
Qed.

Lemma binary_round_exact s n k e :
  Z.pos (digits2_pos n) <= 24 ->
  -149 <= Z.pos (digits2_pos n) + Z.of_nat k + e - 24 <= 104 ->
  binary_round 24 128 s (shl n k) e
  = S754_finite s (shl n (Z.to_nat (24 - Z.pos (digits2_pos n))))
                (Z.pos (digits2_pos n) + Z.of_nat k + e - 24).
Proof.
  intros Hd Hc. set (dn := Z.pos (digits2_pos n)) in *.
  set (c := dn + Z.of_nat k + e - 24) in *.
  assert (Hdig : Z.pos (digits2_pos (shl n k)) = dn + Z.of_nat k)
    by apply digits2_pos_shl.
  assert (Hfexp : fexp32 (dn + Z.of_nat k + e) = c)
    by (rewrite fexp32_eq; unfold c; lia).
  assert (Hfull : Z.pos (digits2_pos (shl n (Z.to_nat (24 - dn)))) = 24).
  { rewrite digits2_pos_shl. fold dn. lia. }
  unfold binary_round. rewrite Hdig. fold (fexp32 (dn + Z.of_nat k + e)).
  rewrite Hfexp. unfold shl_align.
  destruct (c - e) as [| p | p] eqn:Hce.
  - assert (Hk : k = Z.to_nat (24 - dn)) by (unfold c in Hce; lia).
    assert (Hec : e = c) by lia.
    rewrite Hec, Hk.
    apply binary_round_aux_exact; [| exact Hfull | exact Hc].
    apply shr_fexp_noop. cbn [Zdigits2]. rewrite Hfull, fexp32_eq. lia.
  - assert (Hk : k = (Z.to_nat (24 - dn) + Pos.to_nat p)%nat)
      by (unfold c in Hce; lia).
    apply binary_round_aux_exact; [| exact Hfull | exact Hc].
    unfold shr_fexp. cbn [Zdigits2]. rewrite Hdig.
    fold (fexp32 (dn + Z.of_nat k + e)). rewrite Hfexp, Hce.
    cbn [shr shr_record_of_loc]. rewrite iter_pos_nat.
    rewrite Hk at 1. rewrite <- shl_add, shr_iter_exact.
    f_equal. lia.
  - assert (Hk : Z.to_nat (24 - dn) = (k + Pos.to_nat p)%nat)
      by (unfold c in Hce; lia).
    rewrite Pos_iter_shl, shl_add, <- Hk.
    apply binary_round_aux_exact; [| exact Hfull | exact Hc].
    apply shr_fexp_noop. cbn [Zdigits2]. rewrite Hfull, fexp32_eq. lia.
Qed.


Lemma digits2_pos_le_24 n : Z.pos n < 2 ^ 24 -> Z.pos (digits2_pos n) <= 24.
Proof.
  intros Hn. pose proof (digits2_pos_bounds n) as [Hlo _].
  destruct (Z_lt_le_dec 24 (Z.pos (digits2_pos n))) as [Hgt | Hle]; [| exact Hle].
  assert (2 ^ 24 <= 2 ^ (Z.pos (digits2_pos n) - 1)) by (apply Z.pow_le_mono_r; lia).
  lia.
Qed.

Lemma binary_round_normal s n k e :
  Z.pos n < 2 ^ 24 ->
  -125 <= Z.of_nat k + e <= 80 ->
  binary_round 24 128 s (shl n k) e = normal s n (Z.of_nat k + e).
Proof.
  intros Hn He. pose proof (digits2_pos_le_24 n Hn).
  assert (0 < Z.pos (digits2_pos n)) by lia.
  rewrite binary_round_exact by lia.
  unfold normal. f_equal. lia.
Qed.

Lemma binary_normalize_scaled N k e :
  N <> 0 -> Z.abs N < 2 ^ 24 ->
  -125 <= Z.of_nat k + e <= 80 ->
  binary_normalize 24 128 (N * 2 ^ Z.of_nat k) e false
  = normal (N <? 0) (Z.to_pos (Z.abs N)) (Z.of_nat k + e).
Proof.
  intros HN Hlt He.
  assert (Hpow : 0 < 2 ^ Z.of_nat k) by (apply Z.pow_pos_nonneg; lia).
  destruct N as [| n | n]; [congruence | |].
  - assert (Hv : Z.pos n * 2 ^ Z.of_nat k = Z.pos (shl n k)) by (symmetry; apply shl_value).
    rewrite Hv. cbn [binary_normalize Z.abs Z.to_pos Z.ltb Z.compare].
    apply binary_round_normal; assumption.
  - assert (Hv : Z.neg n * 2 ^ Z.of_nat k = Z.neg (shl n k)).
    { rewrite <- !Pos2Z.opp_pos, shl_value. lia. }
    rewrite Hv. cbn [binary_normalize Z.abs Z.to_pos Z.ltb Z.compare].
    apply binary_round_normal; assumption.
Qed.

Lemma of_int_normal z :
  z <> 0 -> Z.abs z < 2 ^ 24 ->
  SkScalar.of_int z = normal (z <? 0) (Z.to_pos (Z.abs z)) 0.
Proof.
  intros Hz Hlt. unfold SkScalar.of_int, SkScalar.prec, SkScalar.emax.
  pose proof (binary_normalize_scaled z 0 0 Hz Hlt) as H.
  simpl Z.of_nat in H. rewrite Z.pow_0_r, Z.mul_1_r in H. apply H. lia.
Qed.

(** *** Values *)

Lemma Qpower_2_nonneg j : 0 <= j -> Qeq (inject_Z (2 ^ j)) (Qpower 2 j).
Proof. intros Hj. apply (Zpower_Qpower 2 j Hj). Qed.

Lemma normal_value s n e :
  Z.pos n < 2 ^ 24 ->
  SkScalar.has_value (normal s n e)
    (inject_Z (cond_Zopp s (Z.pos n)) * Qpower 2 e)%Q.
Proof.
  intros Hn. pose proof (digits2_pos_le_24 n Hn) as Hd.
  unfold SkScalar.has_value, normal, SkScalar.to_Q.
  set (d := Z.pos (digits2_pos n)) in *.
  assert (Hm : cond_Zopp s (Z.pos (shl n (Z.to_nat (24 - d))))
               = cond_Zopp s (Z.pos n) * 2 ^ (24 - d)).
  { rewrite shl_value, Z2Nat.id by lia. destruct s; simpl cond_Zopp; lia. }
  rewrite Hm, inject_Z_mult, Qpower_2_nonneg by lia.
  rewrite <- Qmult_assoc. apply Qmult_comp; [reflexivity |].
  rewrite <- Qpower_plus by discriminate.
  replace (24 - d + (d + e - 24)) with e by lia. reflexivity.
Qed.

Lemma of_int_value z :
  Z.abs z < 2 ^ 24 -> SkScalar.has_value (SkScalar.of_int z) (inject_Z z).
Proof.
  intros Hlt. destruct (Z.eq_dec z 0) as [-> | Hz].
  - reflexivity.
  - rewrite of_int_normal by assumption.
    assert (Hpos : Z.pos (Z.to_pos (Z.abs z)) = Z.abs z) by (apply Z2Pos.id; lia).
    pose proof (normal_value (z <? 0) (Z.to_pos (Z.abs z)) 0) as H.
    rewrite Hpos in H. specialize (H Hlt).
    unfold SkScalar.has_value in *.
    destruct (SkScalar.to_Q _) as [v |]; [| exact H].
    rewrite H. simpl Qpower. rewrite Qmult_1_r.
    replace (cond_Zopp (z <? 0) (Z.abs z)) with z; [reflexivity |].
    destruct (Z.ltb_spec z 0); simpl cond_Zopp; lia.
Qed.


(** *** Adding and subtracting half a texel *)

Lemma shl_align_value mx ex ez :
  ez <= ex -> Z.pos (fst (shl_align mx ex ez)) = Z.pos mx * 2 ^ (ex - ez).
Proof.
  intros Hle. unfold shl_align. destruct (ez - ex) as [| p | p] eqn:Hd.
  - replace (ex - ez) with 0 by lia. simpl fst. lia.
  - lia.
  - simpl fst. rewrite Pos_iter_shl, shl_value, positive_nat_Z.
    f_equal. f_equal. lia.
Qed.

Lemma aligned_with_half s n :
  Z.pos n < 2 ^ 24 ->
  let d := Z.pos (digits2_pos n) in
  cond_Zopp s (Z.pos (fst (shl_align (shl n (Z.to_nat (24 - d))) (d + 0 - 24) (-24))))
  = cond_Zopp s (Z.pos n) * 2 ^ 24.
Proof.
  intros Hn d. pose proof (digits2_pos_le_24 n Hn) as Hd. fold d in Hd.
  assert (0 < d) by (unfold d; lia).
  rewrite shl_align_value, shl_value, Z2Nat.id by lia.
  replace (d + 0 - 24 - -24) with d by lia.
  rewrite <- Z.mul_assoc, <- Z.pow_add_r by lia.
  replace (24 - d + d) with 24 by lia.
  destruct s; simpl cond_Zopp; lia.
Qed.

Lemma add_half l :
  - 2 ^ 23 <= l < 2 ^ 23 ->
  SkScalar.add (SkScalar.of_int l) SkScalar.SK_ScalarHalf
  = normal (2 * l + 1 <? 0) (Z.to_pos (Z.abs (2 * l + 1))) (-1).
Proof.
  intros Hl. destruct (Z.eq_dec l 0) as [-> | Hz]; [reflexivity |].
  rewrite of_int_normal by lia.
  assert (Hn : Z.pos (Z.to_pos (Z.abs l)) < 2 ^ 24) by (rewrite Z2Pos.id; lia).
  unfold SkScalar.add, SkScalar.prec, SkScalar.emax, SkScalar.SK_ScalarHalf.
  unfold normal at 1. unfold SFadd.
  rewrite Z.min_r by lia.
  pose proof (aligned_with_half (l <? 0) (Z.to_pos (Z.abs l)) Hn) as Ha.
  cbv zeta in Ha. rewrite Ha.
  rewrite Z2Pos.id by lia.
  replace (cond_Zopp (l <? 0) (Z.abs l)) with l
    by (destruct (Z.ltb_spec l 0); simpl cond_Zopp; lia).
  replace (l * 2 ^ 24 + cond_Zopp false (Z.pos (fst (shl_align 8388608 (-24) (-24)))))
    with ((2 * l + 1) * 2 ^ Z.of_nat 23) by (simpl; lia).
  apply binary_normalize_scaled; simpl; lia.
Qed.

Lemma sub_half r :
  - 2 ^ 23 < r <= 2 ^ 23 ->
  SkScalar.sub (SkScalar.of_int r) SkScalar.SK_ScalarHalf
  = normal (2 * r - 1 <? 0) (Z.to_pos (Z.abs (2 * r - 1))) (-1).
Proof.
  intros Hr. destruct (Z.eq_dec r 0) as [-> | Hz]; [reflexivity |].
  rewrite of_int_normal by lia.
  assert (Hn : Z.pos (Z.to_pos (Z.abs r)) < 2 ^ 24) by (rewrite Z2Pos.id; lia).
  unfold SkScalar.sub, SkScalar.prec, SkScalar.emax, SkScalar.SK_ScalarHalf.
  unfold normal at 1. unfold SFsub.
  rewrite Z.min_r by lia.
  pose proof (aligned_with_half (r <? 0) (Z.to_pos (Z.abs r)) Hn) as Ha.
  cbv zeta in Ha. rewrite Ha.
  rewrite Z2Pos.id by lia.
  replace (cond_Zopp (r <? 0) (Z.abs r)) with r
    by (destruct (Z.ltb_spec r 0); simpl cond_Zopp; lia).
  replace (r * 2 ^ 24 - cond_Zopp false (Z.pos (fst (shl_align 8388608 (-24) (-24)))))
    with ((2 * r - 1) * 2 ^ Z.of_nat 23) by (simpl; lia).
  apply binary_normalize_scaled; simpl; lia.
Qed.

Lemma half_integer_value (N : Z) :
  N <> 0 -> Z.abs N < 2 ^ 24 ->
  SkScalar.has_value (normal (N <? 0) (Z.to_pos (Z.abs N)) (-1))
                     (inject_Z N * (1 # 2))%Q.
Proof.
  intros HN Hlt.
  assert (Hpos : Z.pos (Z.to_pos (Z.abs N)) = Z.abs N) by (apply Z2Pos.id; lia).
  pose proof (normal_value (N <? 0) (Z.to_pos (Z.abs N)) (-1)) as H.
  rewrite Hpos in H. specialize (H Hlt).
  replace (cond_Zopp (N <? 0) (Z.abs N)) with N in H
    by (destruct (Z.ltb_spec N 0); simpl cond_Zopp; lia).
  exact H.
Qed.

Lemma add_half_value l :
  - 2 ^ 23 <= l < 2 ^ 23 ->
  SkScalar.has_value (SkScalar.add (SkScalar.of_int l) SkScalar.SK_ScalarHalf)
                     (inject_Z l + (1 # 2))%Q.
Proof.
  intros Hl. rewrite add_half by exact Hl.
  pose proof (half_integer_value (2 * l + 1)) as H.
  unfold SkScalar.has_value in *.
  destruct (SkScalar.to_Q _) as [v |]; [| apply H; lia].
  rewrite H by lia. rewrite inject_Z_plus, inject_Z_mult.
  unfold Qeq. simpl. lia.
Qed.

Lemma sub_half_value r :
  - 2 ^ 23 < r <= 2 ^ 23 ->
  SkScalar.has_value (SkScalar.sub (SkScalar.of_int r) SkScalar.SK_ScalarHalf)
                     (inject_Z r - (1 # 2))%Q.
Proof.
  intros Hr. rewrite sub_half by exact Hr.
  pose proof (half_integer_value (2 * r - 1)) as H.
  unfold SkScalar.has_value in *.
  destruct (SkScalar.to_Q _) as [v |]; [| apply H; lia].
  rewrite H by lia.
  unfold Qeq, Qminus, Qplus, Qmult, Qopp, inject_Z. simpl. lia.
Qed.


(** *** A converted integer is never the negative zero *)

Lemma shr_1_m r : 0 <= shr_m r -> shr_m (shr_1 r) = Z.div2 (shr_m r).
Proof.
  destruct r as [m b c]. cbn [shr_m]. intros Hm.
  destruct m as [| [p | p |] | p]; try reflexivity. lia.
Qed.

Lemma shr_iter_m r k :
  0 <= shr_m r -> shr_m (Nat.iter k shr_1 r) = Z.shiftr (shr_m r) (Z.of_nat k).
Proof.
  intros Hm. induction k as [| k IH].
  - simpl. rewrite Z.shiftr_0_r. reflexivity.
  - rewrite Nat.iter_succ, shr_1_m.
    + rewrite IH, Z.div2_spec, Z.shiftr_shiftr by lia. f_equal. lia.
    + rewrite IH. apply Z.shiftr_nonneg. exact Hm.
Qed.

Lemma shiftr_pos m k :
  0 <= k -> 2 ^ k <= m -> 0 < Z.shiftr m k.
Proof.
  intros Hk Hm. rewrite Z.shiftr_div_pow2 by exact Hk.
  apply Z.div_str_pos. split; [apply Z.pow_pos_nonneg; lia | exact Hm].
Qed.

Lemma shr_fexp_pos m e l :
  -149 <= e ->
  0 < shr_m (fst (shr_fexp 24 128 (Z.pos m) e l))
  /\ -149 <= snd (shr_fexp 24 128 (Z.pos m) e l).
Proof.
  intros He. unfold shr_fexp. cbn [Zdigits2].
  fold (fexp32 (Z.pos (digits2_pos m) + e)). rewrite fexp32_eq.
  pose proof (digits2_pos_bounds m) as [Hlo _].
  set (d := Z.pos (digits2_pos m)) in *.
  assert (Hd : 0 < d) by (unfold d; lia).
  destruct (Z.max (d + e - 24) (-149) - e) as [| p | p] eqn:Hn; cbn [shr fst snd].
  - destruct l as [| []]; cbn [shr_record_of_loc shr_m]; lia.
  - rewrite iter_pos_nat, shr_iter_m, positive_nat_Z.
    + split; [| lia].
      assert (Hm : shr_m (shr_record_of_loc (Z.pos m) l) = Z.pos m)
        by (destruct l as [| []]; reflexivity).
      rewrite Hm. apply shiftr_pos; [lia |].
      transitivity (2 ^ (d - 1)); [apply Z.pow_le_mono_r; lia | exact Hlo].
    + destruct l as [| []]; cbn [shr_record_of_loc shr_m]; lia.
  - destruct l as [| []]; cbn [shr_record_of_loc shr_m]; lia.
Qed.

Lemma round_nearest_even_ge m l : m <= round_nearest_even m l.
Proof.
  unfold round_nearest_even. destruct l as [| []]; try lia.
  destruct (Z.even m); lia.
Qed.

Lemma binary_round_aux_nonzero s m e l :
  -149 <= e ->
  nonzero_of_sign s (binary_round_aux 24 128 s (Z.pos m) e l).
Proof.
  intros He. unfold binary_round_aux.
  destruct (shr_fexp_pos m e l He) as [Hm1 He1].
  destruct (shr_fexp 24 128 (Z.pos m) e l) as [mrs1 e1]. cbn [fst snd] in Hm1, He1.
  pose proof (round_nearest_even_ge (shr_m mrs1) (loc_of_shr_record mrs1)) as Hge.
  destruct (round_nearest_even (shr_m mrs1) (loc_of_shr_record mrs1)) as [| m2 | m2];
    try lia.
  destruct (shr_fexp_pos m2 e1 loc_Exact He1) as [Hm2 _].
  destruct (shr_fexp 24 128 (Z.pos m2) e1 loc_Exact) as [mrs2 e2]. cbn [fst] in Hm2.
  destruct (shr_m mrs2) as [| m3 | m3]; try lia.
  destruct (e2 <=? 128 - 24); reflexivity.
Qed.

Lemma of_int_nonzero z :
  z <> 0 -> nonzero_of_sign (z <? 0) (SkScalar.of_int z).
Proof.
  intros Hz. unfold SkScalar.of_int, SkScalar.prec, SkScalar.emax.
  assert (Hround : forall s m, nonzero_of_sign s (binary_round 24 128 s m 0)).
  { intros s m. unfold binary_round, shl_align.
    fold (fexp32 (Z.pos (digits2_pos m) + 0)). rewrite fexp32_eq.
    destruct (Z.max (Z.pos (digits2_pos m) + 0 - 24) (-149) - 0) as [| p | p] eqn:Hn;
      apply binary_round_aux_nonzero; lia. }
  destruct z as [| m | m]; [congruence | apply Hround | apply Hround].
Qed.

Lemma add_zero x :
  x <> S754_zero true -> SkScalar.add x SkScalar.zero = x.
Proof. destruct x as [[] | [] | | s m e]; intros H; try reflexivity. congruence. Qed.

Lemma sub_zero x : SkScalar.sub x SkScalar.zero = x.
Proof. destruct x as [[] | [] | | s m e]; reflexivity. Qed.

Lemma of_int_not_negative_zero z : SkScalar.of_int z <> S754_zero true.
Proof.
  destruct (Z.eq_dec z 0) as [-> | Hz]; [discriminate |].
  pose proof (of_int_nonzero z Hz) as H. intros Heq. rewrite Heq in H. exact H.
Qed.


(** ** Texel domains *)

Import GrTextureDomain.

Lemma MakeTexelDomain_unfold r mx my :
  MakeTexelDomain r mx my =
  MakeLTRB (SkScalar.add (SkScalar.of_int (iLeft r)) (axis_inset mx (SkIRect_width r)))
           (SkScalar.add (SkScalar.of_int (iTop r)) (axis_inset my (SkIRect_height r)))
           (SkScalar.sub (SkScalar.of_int (iRight r)) (axis_inset mx (SkIRect_width r)))
           (SkScalar.sub (SkScalar.of_int (iBottom r)) (axis_inset my (SkIRect_height r))).
Proof. reflexivity. Qed.

Lemma axis_inset_cases m ext :
  axis_inset m ext = if insets m && (0 <? ext) then SkScalar.SK_ScalarHalf else SkScalar.zero.
Proof. unfold axis_inset. destruct m; reflexivity. Qed.

Lemma axis_not_inset m ext lo hi :
  insets m && (0 <? ext) = false ->
  SkScalar.add (SkScalar.of_int lo) (axis_inset m ext) = SkScalar.of_int lo
  /\ SkScalar.sub (SkScalar.of_int hi) (axis_inset m ext) = SkScalar.of_int hi.
Proof.
  intros H. rewrite axis_inset_cases, H. split.
  - apply add_zero, of_int_not_negative_zero.
  - apply sub_zero.
Qed.

Lemma axis_exact m lo hi :
  texel_exact lo -> texel_exact hi ->
  axis_domain (insets m && (0 <? hi - lo)) lo hi
    (SkScalar.add (SkScalar.of_int lo) (axis_inset m (wrap_s32 (hi - lo))))
    (SkScalar.sub (SkScalar.of_int hi) (axis_inset m (wrap_s32 (hi - lo)))).
Proof.
  unfold texel_exact. intros Hlo Hhi.
  rewrite wrap_s32_small by (unfold is_int32; lia).
  unfold axis_domain.
  destruct (insets m && (0 <? hi - lo)) eqn:Hin.
  - rewrite axis_inset_cases, Hin. split.
    + apply add_half_value. lia.
    + apply sub_half_value. lia.
  - destruct (axis_not_inset m (hi - lo) lo hi Hin) as [-> ->].
    repeat split; try reflexivity; apply of_int_value; lia.
Qed.

(** C3, as the code has it.  For an integer rectangle whose coordinates lie
    strictly between -2^23 and 2^23, [MakeTexelDomain] insets an axis by
    exactly half a texel on each side when the axis's mode is clamp or decal
    and its extent is positive, and otherwise leaves the axis at its integer
    bounds converted to floats, which then are these integers exactly.  For
    any integer rectangle, an axis that is not inset (another mode, or
    [width()]/[height()] not positive) is left at the converted bounds.
    [MakeTexelDomain({0,0,4,4}, clamp, clamp)] is [{0.5, 0.5, 3.5, 3.5}] and
    [MakeTexelDomain({0,0,4,4}, ignore, ignore)] is [{0,0,4,4}]. *)
Theorem MakeTexelDomain_insets_half_texel (r : SkIRect) (modeX modeY : Mode) :
  SkIRect_exact r ->
  let d := MakeTexelDomain r modeX modeY in
  axis_domain (insets modeX && (0 <? iRight r - iLeft r))
              (iLeft r) (iRight r) (fLeft d) (fRight d)
  /\ axis_domain (insets modeY && (0 <? iBottom r - iTop r))
                 (iTop r) (iBottom r) (fTop d) (fBottom d)
  /\ (forall (r' : SkIRect) (mx my : Mode),
        let d' := MakeTexelDomain r' mx my in
        (insets mx && (0 <? SkIRect_width r') = false ->
           fLeft d' = SkScalar.of_int (iLeft r')
           /\ fRight d' = SkScalar.of_int (iRight r'))
        /\ (insets my && (0 <? SkIRect_height r') = false ->
              fTop d' = SkScalar.of_int (iTop r')
              /\ fBottom d' = SkScalar.of_int (iBottom r')))
  /\ (let c := MakeTexelDomain (MakeIRect 0 0 4 4) kClamp_Mode kClamp_Mode in
      SkScalar.has_value (fLeft c) (1 # 2) /\ SkScalar.has_value (fTop c) (1 # 2)
      /\ SkScalar.has_value (fRight c) (7 # 2)
      /\ SkScalar.has_value (fBottom c) (7 # 2))
  /\ MakeTexelDomain (MakeIRect 0 0 4 4) kIgnore_Mode kIgnore_Mode
     = SkRect_of_ints 0 0 4 4.
Proof.
  intros (Hl & Ht & Hr & Hb) d. unfold d. rewrite MakeTexelDomain_unfold.
  cbn [fLeft fTop fRight fBottom].
  split; [apply axis_exact; assumption |].
  split; [apply axis_exact; assumption |].
  split; [| split; [vm_compute; intuition reflexivity | reflexivity]].
  intros r' mx my. cbv zeta. rewrite MakeTexelDomain_unfold.
  cbn [fLeft fTop fRight fBottom].
  split; intros H; apply axis_not_inset; exact H.
Qed.

(** The rectangle [{-3,2,5,2}] with decal on X and clamp on Y: X is inset,
    Y has no extent and is not. *)
Lemma MakeTexelDomain_insets_half_texel_witness :
  SkIRect_exact (MakeIRect (-3) 2 5 2)
  /\ axis_domain true (-3) 5
       (fLeft (MakeTexelDomain (MakeIRect (-3) 2 5 2) kDecal_Mode kClamp_Mode))
       (fRight (MakeTexelDomain (MakeIRect (-3) 2 5 2) kDecal_Mode kClamp_Mode))
  /\ axis_domain false 2 2
       (fTop (MakeTexelDomain (MakeIRect (-3) 2 5 2) kDecal_Mode kClamp_Mode))
       (fBottom (MakeTexelDomain (MakeIRect (-3) 2 5 2) kDecal_Mode kClamp_Mode)).
Proof.
  assert (H : SkIRect_exact (MakeIRect (-3) 2 5 2)).
  { unfold SkIRect_exact, texel_exact. simpl. lia. }
  split; [exact H |].
  pose proof (MakeTexelDomain_insets_half_texel (MakeIRect (-3) 2 5 2)
                kDecal_Mode kClamp_Mode H) as (HX & HY & _).
  split; [exact HX | exact HY].
Defined.

(** C3, as stated, at the rectangle [{8388608, 0, 8388612, 4}] with clamp on
    both axes.  The X extent is 4, but the left edge is not inset:
    [8388608 + 0.5f] is halfway between two floats and rounds to 8388608,
    the converted bound itself. *)
Lemma MakeTexelDomain_large_no_inset :
  fLeft (MakeTexelDomain (MakeIRect 8388608 0 8388612 4) kClamp_Mode kClamp_Mode)
  = SkScalar.of_int 8388608
  /\ ~ SkScalar.has_value
         (fLeft (MakeTexelDomain (MakeIRect 8388608 0 8388612 4) kClamp_Mode kClamp_Mode))
         (inject_Z 8388608 + (1 # 2))%Q.
Proof.
  split; [vm_compute; reflexivity |].
  vm_compute. discriminate.
Qed.

End FloatFacts.

(** ** The atlas manager *)

Section ManagerFacts.
Import GrDrawOpAtlas GrAtlasManager.
Context {C : Collaborators}.

Lemma clear_slots_length l idxs : length (clear_slots l idxs) = length l.
Proof.
  revert l. induction idxs as [| i idxs IH]; intros l; simpl; [done |].
  unfold clear_slots in *. simpl. rewrite IH. apply length_insert.
Qed.

Lemma clear_slots_lookup l idxs j :
  clear_slots l idxs !! j =
  if bool_decide (j ∈ idxs) then (fun _ => None) <$> (l !! j) else l !! j.
Proof.
  revert l. induction idxs as [| i idxs IH]; intros l; simpl.
  - done.
  - unfold clear_slots in *. simpl. rewrite IH.
    destruct (decide (i = j)) as [-> | Hne].
    + rewrite (bool_decide_eq_true_2 (j ∈ j :: idxs)) by apply list_elem_of_here.
      destruct (decide (j < length l)%nat) as [Hlt | Hge].
      * rewrite list_lookup_insert_eq by done.
        destruct (lookup_lt_is_Some_2 l j Hlt) as [x Hx]. rewrite Hx.
        by case_bool_decide.
      * rewrite list_insert_ge by lia.
        rewrite (lookup_ge_None_2 l j) by lia. by case_bool_decide.
    + rewrite list_lookup_insert_ne by done.
      repeat case_bool_decide; try done.
      * exfalso. apply H0. by apply list_elem_of_further.
      * exfalso. apply elem_of_cons in H0 as [-> | ?]; done.
Qed.

Lemma clear_slots_all l :
  clear_slots l (seq 0 (length l)) = replicate (length l) None.
Proof.
  apply list_eq. intros j. rewrite clear_slots_lookup.
  destruct (decide (j < length l)%nat) as [Hlt | Hge].
  - rewrite bool_decide_eq_true_2 by (apply list_elem_of_In, in_seq; lia).
    destruct (lookup_lt_is_Some_2 l j Hlt) as [x Hx]. rewrite Hx. simpl.
    symmetry. by apply lookup_replicate_2.
  - rewrite bool_decide_eq_false_2 by (rewrite list_elem_of_In, in_seq; lia).
    rewrite (lookup_ge_None_2 l j) by lia.
    symmetry. apply lookup_ge_None_2. rewrite length_replicate. lia.
Qed.

Lemma heldAtlases_cons (slot : option Atlas) (l : list (option Atlas)) :
  heldAtlases (slot :: l) = match slot with Some a => [a] | None => [] end ++ heldAtlases l.
Proof. destruct slot; reflexivity. Qed.

Lemma deleteAll_app (l1 l2 : list Atlas) (w : World) :
  deleteAll (l1 ++ l2) w = deleteAll l2 (deleteAll l1 w).
Proof. unfold deleteAll. apply foldl_app. Qed.

Lemma makeCalls_deletes (l : list Atlas) : makeCalls (EvDelete <$> l) = [].
Proof. induction l as [| a l IH]; [reflexivity | exact IH]. Qed.

(** One assignment, on a slot inside the array. *)
Lemma assignAtlas_run (i : nat) (v old : option Atlas) (s : Sys) :
  fAtlases (manager s) !! i = Some old ->
  assignAtlas i v s =
  Some (tt, MakeSys (with_atlases (manager s) (<[i := v]> (fAtlases (manager s))))
                    (deleteAll (heldAtlases [old]) (world s))
                    (trace s ++ (EvDelete <$> heldAtlases [old]))).
Proof.
  intros Hold.
  assert (Hlt : (i < length (fAtlases (manager s)))%nat)
    by (eapply lookup_lt_Some; exact Hold).
  apply Nat.ltb_lt in Hlt.
  unfold assignAtlas, bind at 1, readAtlas. rewrite Hold.
  unfold bind at 1, writeAtlas. rewrite Hlt.
  destruct old as [a |]; cbn.
  - reflexivity.
  - rewrite app_nil_r. reflexivity.
Qed.

Lemma for_each_clear (n : nat) :
  forall (k : nat) (s : Sys),
    (k + n <= length (fAtlases (manager s)))%nat ->
    for_each (seq k n) (fun i => assignAtlas i None) s =
    Some (tt,
          MakeSys (with_atlases (manager s) (clear_slots (fAtlases (manager s)) (seq k n)))
                  (deleteAll (heldAtlases (take n (drop k (fAtlases (manager s)))))
                             (world s))
                  (trace s
                   ++ (EvDelete <$> heldAtlases (take n (drop k (fAtlases (manager s))))))).
Proof.
  induction n as [| n IH]; intros k s Hlen.
  - destruct s as [[am l c] w tr]. cbn. rewrite app_nil_r. reflexivity.
  - assert (Hk : (k < length (fAtlases (manager s)))%nat) by lia.
    destruct (lookup_lt_is_Some_2 _ _ Hk) as [old Hold].
    cbn [seq for_each]. unfold bind at 1.
    rewrite (assignAtlas_run k None old s Hold).
    rewrite IH by (cbn; rewrite length_insert; lia).
    cbn [manager world trace fAtlases with_atlases fAllowMultitexturing fAtlasConfig].
    rewrite drop_insert_lt by lia.
    rewrite (drop_S _ _ _ Hold). cbn [take].
    rewrite (heldAtlases_cons old (take n _)).
    rewrite deleteAll_app, fmap_app, app_assoc.
    destruct old; reflexivity.
Qed.

Lemma freeAll_run (s : Sys) :
  well_formed s ->
  freeAll s = Some (tt, cleared s).
Proof.
  unfold well_formed, freeAll, for_upto, cleared. intros Hwf.
  rewrite <- Hwf at 1. rewrite for_each_clear by lia.
  rewrite clear_slots_all, drop_0, take_ge, Hwf by lia. reflexivity.
Qed.

Lemma setAtlasDimensionsToMinimum_ForTesting_run (s : Sys) :
  well_formed s ->
  setAtlasDimensionsToMinimum_ForTesting s =
  Some (tt, MakeSys (MakeManager (fAllowMultitexturing (manager s))
                                 (replicate kMaskFormatCount None)
                                 GrDrawOpAtlasConfig_default)
                    (world (cleared s)) (trace (cleared s))).
Proof.
  intros Hwf. unfold setAtlasDimensionsToMinimum_ForTesting, bind.
  fold freeAll. rewrite (freeAll_run s Hwf). reflexivity.
Qed.

Lemma initAtlas_present (format : GrMaskFormat) (s : Sys) (a : Atlas) :
  fAtlases (manager s) !! MaskFormatToAtlasIndex format = Some (Some a) ->
  initAtlas format s = Some (true, s).
Proof.
  intros H. unfold initAtlas, bind, readAtlas. rewrite H. reflexivity.
Qed.

Lemma initAtlas_absent (format : GrMaskFormat) (s : Sys) :
  fAtlases (manager s) !! MaskFormatToAtlasIndex format = Some None ->
  initAtlas format s =
  Some (bool_decide (is_Some (fst (GrDrawOpAtlas_Make (makeArgs (manager s) format)
                                                      (world s)))),
        constructed s format).
Proof.
  intros H. unfold initAtlas, bind at 1, readAtlas at 1. rewrite H.
  unfold bind at 1, getManager. unfold bind at 1, emit.
  unfold bind at 1, call. simpl.
  unfold constructed.
  destruct (GrDrawOpAtlas_Make (makeArgs (manager s) format) (world s)) as [made w'].
  simpl. unfold bind at 1.
  erewrite (assignAtlas_run _ made None) by exact H.
  assert (Hlt : (MaskFormatToAtlasIndex format < length (fAtlases (manager s)))%nat)
    by (eapply lookup_lt_Some; exact H).
  unfold bind, readAtlas. cbn.
  rewrite list_lookup_insert_eq by exact Hlt. rewrite app_nil_r.
  destruct made; reflexivity.
Qed.


Lemma atlasOf_lookup (s : Sys) (format : GrMaskFormat) :
  (MaskFormatToAtlasIndex format < length (fAtlases (manager s)))%nat ->
  fAtlases (manager s) !! MaskFormatToAtlasIndex format = Some (atlasOf s format).
Proof.
  intros Hlt. unfold atlasOf.
  destruct (lookup_lt_is_Some_2 _ _ Hlt) as [x Hx]. rewrite Hx. reflexivity.
Qed.

Lemma atlasOf_Some (s : Sys) (format : GrMaskFormat) (a : Atlas) :
  atlasOf s format = Some a ->
  fAtlases (manager s) !! MaskFormatToAtlasIndex format = Some (Some a).
Proof.
  unfold atlasOf.
  destruct (fAtlases (manager s) !! MaskFormatToAtlasIndex format) as [[x |] |];
    simpl; congruence.
Qed.

Lemma constructed_atlasOf (s : Sys) (format : GrMaskFormat) :
  (MaskFormatToAtlasIndex format < length (fAtlases (manager s)))%nat ->
  atlasOf (constructed s format) format =
  fst (GrDrawOpAtlas_Make (makeArgs (manager s) format) (world s)).
Proof.
  intros Hlt. unfold atlasOf, constructed. simpl.
  rewrite list_lookup_insert_eq by exact Hlt. reflexivity.
Qed.

Lemma constructed_atlasOf_ne (s : Sys) (format other : GrMaskFormat) :
  MaskFormatToAtlasIndex format <> MaskFormatToAtlasIndex other ->
  atlasOf (constructed s format) other = atlasOf s other.
Proof.
  intros Hne. unfold atlasOf, constructed. simpl.
  rewrite list_lookup_insert_ne by exact Hne. reflexivity.
Qed.

Lemma makeCalls_app (tr1 tr2 : list Event) :
  makeCalls (tr1 ++ tr2) = makeCalls tr1 ++ makeCalls tr2.
Proof. unfold makeCalls. apply omap_app. Qed.

Lemma constructed_makeCalls (s : Sys) (format : GrMaskFormat) :
  makeCalls (trace (constructed s format)) =
  makeCalls (trace s) ++ [MaskFormatToAtlasIndex format].
Proof. unfold constructed. simpl. rewrite makeCalls_app. reflexivity. Qed.

Lemma getAtlas_present (format : GrMaskFormat) (s : Sys) (a : Atlas) :
  atlasOf s format = Some a ->
  getAtlas format s = Some (a, s).
Proof.
  intros H. apply atlasOf_Some in H.
  unfold getAtlas, bind. rewrite (initAtlas_present format s a H).
  unfold readAtlas. rewrite H. reflexivity.
Qed.

Lemma getAtlas_absent (format : GrMaskFormat) (s : Sys) (a : Atlas) :
  fAtlases (manager s) !! MaskFormatToAtlasIndex format = Some None ->
  fst (GrDrawOpAtlas_Make (makeArgs (manager s) format) (world s)) = Some a ->
  getAtlas format s = Some (a, constructed s format).
Proof.
  intros H Hmade.
  unfold getAtlas, bind. rewrite (initAtlas_absent format s H), Hmade.
  rewrite bool_decide_eq_true_2 by eauto.
  unfold readAtlas.
  assert (Hlt : (MaskFormatToAtlasIndex format < length (fAtlases (manager s)))%nat)
    by (eapply lookup_lt_Some; exact H).
  pose proof (constructed_atlasOf s format Hlt) as Hc. rewrite Hmade in Hc.
  apply atlasOf_Some in Hc. rewrite Hc. reflexivity.
Qed.

(** C5.  After [freeAll] every one of the [kMaskFormatCount] slots is null,
    the atlases the slots held having been deleted.  For any format, the next [initAtlas] then finds its slot null and calls
    the factory once: the slot afterwards holds what the factory returned and
    the result tells whether that is an atlas.  An operation that goes
    through [getAtlas] reaches the atlas constructed this way. *)
Theorem freeAll_clears_every_slot (s : Sys) :
  well_formed s ->
  freeAll s = Some (tt, cleared s)
  /\ (forall i : nat, (i < kMaskFormatCount)%nat ->
        fAtlases (manager (cleared s)) !! i = Some None)
  /\ (forall format : GrMaskFormat,
        (MaskFormatToAtlasIndex format < kMaskFormatCount)%nat ->
        let s1 := cleared s in
        let made := fst (GrDrawOpAtlas_Make (makeArgs (manager s1) format) (world s1)) in
        atlasOf s1 format = None
        /\ initAtlas format s1 =
           Some (bool_decide (is_Some made), constructed s1 format)
        /\ atlasOf (constructed s1 format) format = made
        /\ makeCalls (trace (constructed s1 format)) =
           makeCalls (trace s) ++ [MaskFormatToAtlasIndex format]
        /\ (forall a : Atlas, made = Some a ->
              getAtlas format s1 = Some (a, constructed s1 format))).
Proof.
  intros Hwf.
  assert (Hnone : forall i : nat, (i < kMaskFormatCount)%nat ->
            fAtlases (manager (cleared s)) !! i = Some None).
  { intros i Hi. unfold cleared. simpl. by apply lookup_replicate_2. }
  split; [apply (freeAll_run s Hwf) | split; [exact Hnone |]].
  intros format Hidx s1 made.
  assert (Hslot : fAtlases (manager s1) !! MaskFormatToAtlasIndex format = Some None)
    by (apply Hnone, Hidx).
  assert (Hlt : (MaskFormatToAtlasIndex format < length (fAtlases (manager s1)))%nat)
    by (eapply lookup_lt_Some; exact Hslot).
  split; [| split; [| split; [| split]]].
  - unfold atlasOf. rewrite Hslot. reflexivity.
  - apply (initAtlas_absent format s1 Hslot).
  - apply (constructed_atlasOf s1 format Hlt).
  - rewrite (constructed_makeCalls s1 format). unfold s1, cleared. cbn [trace].
    rewrite makeCalls_app, makeCalls_deletes, app_nil_r. reflexivity.
  - intros a Ha. apply (getAtlas_absent format s1 a Hslot Ha).
Qed.

(** C6.  When the slot of a format is null and [GrDrawOpAtlas::Make] returns
    null, [initAtlas] returns false and leaves the manager as it was, the
    slot still null.  The next [initAtlas] for the format calls the factory
    again, and its outcome is the one of that second call. *)
Theorem initAtlas_failure_not_cached (s : Sys) (format : GrMaskFormat) :
  fAtlases (manager s) !! MaskFormatToAtlasIndex format = Some None ->
  fst (GrDrawOpAtlas_Make (makeArgs (manager s) format) (world s)) = None ->
  exists s1 : Sys,
    initAtlas format s = Some (false, s1)
    /\ manager s1 = manager s
    /\ atlasOf s1 format = None
    /\ makeCalls (trace s1) = makeCalls (trace s) ++ [MaskFormatToAtlasIndex format]
    /\ (let made := fst (GrDrawOpAtlas_Make (makeArgs (manager s1) format) (world s1)) in
        initAtlas format s1 = Some (bool_decide (is_Some made), constructed s1 format)
        /\ atlasOf (constructed s1 format) format = made
        /\ makeCalls (trace (constructed s1 format)) =
           makeCalls (trace s)
           ++ [MaskFormatToAtlasIndex format; MaskFormatToAtlasIndex format]).
Proof.
  intros Hslot Hfail.
  assert (Hlt : (MaskFormatToAtlasIndex format < length (fAtlases (manager s)))%nat)
    by (eapply lookup_lt_Some; exact Hslot).
  exists (constructed s format).
  assert (Hm : manager (constructed s format) = manager s).
  { unfold constructed. simpl. rewrite Hfail.
    rewrite list_insert_id by exact Hslot.
    destruct (manager s); reflexivity. }
  assert (Hslot1 : fAtlases (manager (constructed s format))
                     !! MaskFormatToAtlasIndex format = Some None)
    by (rewrite Hm; exact Hslot).
  assert (Hlt1 : (MaskFormatToAtlasIndex format
                  < length (fAtlases (manager (constructed s format))))%nat)
    by (rewrite Hm; exact Hlt).
  split; [| split; [exact Hm | split; [| split; [| split; [| split]]]]].
  - rewrite (initAtlas_absent format s Hslot), Hfail.
    rewrite bool_decide_eq_false_2; [reflexivity |].
    intros [x Hx]; discriminate Hx.
  - rewrite (constructed_atlasOf s format Hlt). exact Hfail.
  - apply constructed_makeCalls.
  - apply (initAtlas_absent format _ Hslot1).
  - apply (constructed_atlasOf _ format Hlt1).
  - rewrite !constructed_makeCalls, <- app_assoc. reflexivity.
Qed.


Lemma keeps_refl s : keeps s s.
Proof.
  split; [reflexivity | split; [auto |]].
  exists []. split; [by rewrite app_nil_r |].
  intros i Hi. simpl in Hi. by apply elem_of_nil in Hi.
Qed.

Lemma keeps_trans s1 s2 s3 : keeps s1 s2 -> keeps s2 s3 -> keeps s1 s3.
Proof.
  intros (Hl1 & Hk1 & tr1 & Ht1 & Hm1) (Hl2 & Hk2 & tr2 & Ht2 & Hm2).
  split; [congruence | split; [auto |]].
  exists (tr1 ++ tr2). split; [rewrite Ht2, Ht1; by rewrite app_assoc |].
  intros i Hi. rewrite makeCalls_app in Hi. apply elem_of_app in Hi as [Hi | Hi].
  - auto.
  - specialize (Hm2 i Hi).
    assert (Hlt : (i < length (fAtlases (manager s1)))%nat).
    { rewrite <- Hl1. eapply lookup_lt_Some. exact Hm2. }
    destruct (lookup_lt_is_Some_2 _ _ Hlt) as [[a |] Hx]; [| exact Hx].
    apply Hk1 in Hx. congruence.
Qed.

Lemma keeps_same_manager s s' (e : Event) :
  manager s' = manager s ->
  trace s' = trace s ++ [e] ->
  makeCalls [e] = [] ->
  keeps s s'.
Proof.
  intros Hm Ht He. unfold keeps. rewrite Hm.
  split; [reflexivity | split; [auto |]].
  exists [e]. split; [exact Ht |].
  intros i Hi. rewrite He in Hi. by apply elem_of_nil in Hi.
Qed.

Lemma keeps_constructed s format :
  fAtlases (manager s) !! MaskFormatToAtlasIndex format = Some None ->
  keeps s (constructed s format).
Proof.
  intros Hslot. unfold keeps, constructed. simpl.
  split; [apply length_insert | split].
  - intros i a Hi.
    destruct (decide (MaskFormatToAtlasIndex format = i)) as [<- | Hne].
    + congruence.
    + by rewrite list_lookup_insert_ne.
  - eexists. split; [reflexivity |].
    intros i Hi. simpl in Hi. apply list_elem_of_singleton in Hi. by subst.
Qed.

Lemma initAtlas_cases format s r s' :
  initAtlas format s = Some (r, s') ->
  (s' = s /\ r = true /\ exists a, atlasOf s format = Some a)
  \/ (s' = constructed s format
      /\ fAtlases (manager s) !! MaskFormatToAtlasIndex format = Some None).
Proof.
  intros H.
  destruct (fAtlases (manager s) !! MaskFormatToAtlasIndex format)
    as [[a |] |] eqn:Hslot.
  - rewrite (initAtlas_present format s a Hslot) in H. inversion H; subst.
    left. repeat split. exists a. unfold atlasOf. by rewrite Hslot.
  - rewrite (initAtlas_absent format s Hslot) in H. inversion H; subst.
    right. by split.
  - unfold initAtlas, bind, readAtlas in H. rewrite Hslot in H. discriminate H.
Qed.

Lemma initAtlas_keeps format s r s' :
  initAtlas format s = Some (r, s') -> keeps s s'.
Proof.
  intros H. apply initAtlas_cases in H as [(-> & _) | (-> & Hslot)].
  - apply keeps_refl.
  - by apply keeps_constructed.
Qed.

Lemma getAtlas_keeps format s a s' :
  getAtlas format s = Some (a, s') -> keeps s s'.
Proof.
  unfold getAtlas, bind at 1. intros H.
  destruct (initAtlas format s) as [[r s1] |] eqn:Hinit; [| discriminate H].
  apply initAtlas_keeps in Hinit.
  destruct r; [| discriminate H].
  unfold bind, readAtlas in H.
  destruct (fAtlases (manager s1) !! MaskFormatToAtlasIndex format) as [[x |] |];
    try discriminate H.
  inversion H; subst. exact Hinit.
Qed.

Lemma run_op_keeps op s s' :
  is_clearing op = false ->
  run_op op s = Some (tt, s') ->
  keeps s s'.
Proof.
  destruct op as [| | f | f g | f w h im l | u f g tok]; simpl;
    intros Hc H; try discriminate Hc.
  - unfold bind in H.
    destruct (initAtlas f s) as [[r s1] |] eqn:Hinit; [| discriminate H].
    inversion H; subst. eapply initAtlas_keeps; eassumption.
  - unfold bind at 1 in H.
    destruct (hasGlyph f g s) as [[r s1] |] eqn:Hop; [| discriminate H].
    inversion H; subst. clear H.
    unfold hasGlyph, bind at 1 in Hop.
    destruct (getAtlas f s) as [[a s2] |] eqn:Hget; [| discriminate Hop].
    apply getAtlas_keeps in Hget.
    unfold bind, emit, call in Hop. simpl in Hop. inversion Hop; subst.
    eapply keeps_trans; [exact Hget |].
    by eapply keeps_same_manager.
  - unfold bind at 1 in H.
    destruct (addToAtlas f w h im l s) as [[r s1] |] eqn:Hop; [| discriminate H].
    inversion H; subst. clear H.
    unfold addToAtlas, bind at 1 in Hop.
    destruct (getAtlas f s) as [[a s2] |] eqn:Hget; [| discriminate Hop].
    apply getAtlas_keeps in Hget.
    unfold bind, emit, call in Hop. simpl in Hop.
    destruct (GrDrawOpAtlas_addToAtlas a w h im l (world s2)) as [[code loc] w'].
    inversion Hop; subst.
    eapply keeps_trans; [exact Hget |].
    by eapply keeps_same_manager.
  - unfold bind at 1 in H.
    destruct (addGlyphToBulkAndSetUseToken u f g tok s) as [[r s1] |] eqn:Hop;
      [| discriminate H].
    inversion H; subst. clear H.
    unfold addGlyphToBulkAndSetUseToken in Hop.
    destruct (BulkUseTokenUpdater_add u (fAtlasLocator g)) as [[|] u'].
    + unfold bind at 1 in Hop.
      destruct (getAtlas f s) as [[a s2] |] eqn:Hget; [| discriminate Hop].
      apply getAtlas_keeps in Hget.
      unfold bind, emit, call, ret in Hop. simpl in Hop. inversion Hop; subst.
      eapply keeps_trans; [exact Hget |].
      by eapply keeps_same_manager.
    + inversion Hop; subst. apply keeps_refl.
Qed.

Lemma run_ops_keeps ops s s' :
  (forall op, op ∈ ops -> is_clearing op = false) ->
  run_ops ops s = Some (tt, s') ->
  keeps s s'.
Proof.
  revert s. induction ops as [| op ops IH]; intros s Hc H.
  - inversion H; subst. apply keeps_refl.
  - simpl in H. unfold bind in H.
    destruct (run_op op s) as [[[] s1] |] eqn:Hop; [| discriminate H].
    eapply keeps_trans.
    + eapply run_op_keeps; [| exact Hop]. apply Hc, list_elem_of_here.
    + apply IH; [| exact H]. intros op' Hin. by apply Hc, list_elem_of_further.
Qed.

Lemma initAtlas_total format s :
  (MaskFormatToAtlasIndex format < length (fAtlases (manager s)))%nat ->
  exists r s', initAtlas format s = Some (r, s').
Proof.
  intros Hlt. destruct (lookup_lt_is_Some_2 _ _ Hlt) as [[a |] Hx].
  - rewrite (initAtlas_present format s a Hx). eauto.
  - rewrite (initAtlas_absent format s Hx). eauto.
Qed.

Lemma run_initAtlas_total (formats : list GrMaskFormat) s :
  (forall f, f ∈ formats ->
     (MaskFormatToAtlasIndex f < length (fAtlases (manager s)))%nat) ->
  exists s', run_ops (OpInitAtlas <$> formats) s = Some (tt, s').
Proof.
  revert s. induction formats as [| f formats IH]; intros s Hin.
  - simpl. unfold ret. eauto.
  - simpl. unfold bind at 1 2.
    destruct (initAtlas_total f s) as (r & s1 & Hinit);
      [apply Hin, list_elem_of_here |].
    rewrite Hinit. simpl.
    apply IH. intros g Hg.
    apply initAtlas_keeps in Hinit as [Hlen _]. rewrite Hlen.
    by apply Hin, list_elem_of_further.
Qed.

(** C7, as the code has it.  [initAtlas] either changes nothing or finds the
    slot of its format null and constructs.  Over any sequence of operations
    of the manager that contains neither [freeAll] nor
    [setAtlasDimensionsToMinimum_ForTesting], a format that has an atlas
    keeps that same atlas, the factory is not called for it, and a further
    [initAtlas] for it returns true and changes nothing.  Sequences of
    [initAtlas] requests for formats within the array always complete. *)
Theorem existing_atlas_kept (ops : list Op) (s s' : Sys)
    (format : GrMaskFormat) (a : Atlas) :
  atlasOf s format = Some a ->
  (forall op, op ∈ ops -> is_clearing op = false) ->
  run_ops ops s = Some (tt, s') ->
  atlasOf s' format = Some a
  /\ (exists tr : list Event,
        trace s' = trace s ++ tr
        /\ (MaskFormatToAtlasIndex format ∉ makeCalls tr))
  /\ initAtlas format s' = Some (true, s')
  /\ (forall (f : GrMaskFormat) (s0 s1 : Sys) (r : bool),
        initAtlas f s0 = Some (r, s1) ->
        s1 = s0 \/ (atlasOf s0 f = None /\ s1 = constructed s0 f))
  /\ (forall formats : list GrMaskFormat,
        (forall f, f ∈ formats ->
           (MaskFormatToAtlasIndex f < length (fAtlases (manager s)))%nat) ->
        exists s'', run_ops (OpInitAtlas <$> formats) s = Some (tt, s'')).
Proof.
  intros Ha Hc Hrun.
  destruct (run_ops_keeps ops s s' Hc Hrun) as (Hlen & Hk & tr & Htr & Hm).
  apply atlasOf_Some in Ha.
  assert (Ha' : fAtlases (manager s') !! MaskFormatToAtlasIndex format = Some (Some a))
    by (apply Hk, Ha).
  split; [| split; [| split; [| split]]].
  - unfold atlasOf. rewrite Ha'. reflexivity.
  - exists tr. split; [exact Htr |]. intros Hin. apply Hm in Hin. congruence.
  - apply (initAtlas_present format s' a Ha').
  - intros f s0 s1 r Hinit.
    apply initAtlas_cases in Hinit as [(-> & _) | (-> & Hslot)]; [by left | right].
    split; [| reflexivity]. unfold atlasOf. rewrite Hslot. reflexivity.
  - intros formats Hf. apply (run_initAtlas_total formats s Hf).
Qed.

Lemma BulkUseTokenUpdater_add_cases u l :
  (plotKey l ∈ fPlotsToUpdate u /\ BulkUseTokenUpdater_add u l = (false, u))
  \/ ((plotKey l ∉ fPlotsToUpdate u)
      /\ BulkUseTokenUpdater_add u l =
         (true, MakeUpdater (fPlotsToUpdate u ++ [plotKey l]))).
Proof.
  unfold BulkUseTokenUpdater_add, BulkUseTokenUpdater_find.
  case_bool_decide; [left | right]; by split.
Qed.

Lemma marked_plots (glyphs : list (GrMaskFormat * GrGlyph)) (u : BulkUseTokenUpdater) :
  NoDup (glyphPlot <$> marked u glyphs)
  /\ (forall k, k ∈ glyphPlot <$> marked u glyphs <->
                k ∈ glyphPlot <$> glyphs /\ k ∉ fPlotsToUpdate u).
Proof.
  revert u. induction glyphs as [| [f g] rest IH]; intros u.
  - simpl. split; [constructor |].
    intros k. split; [intros H; by apply elem_of_nil in H | intros [H _]; exact H].
  - simpl.
    destruct (BulkUseTokenUpdater_add_cases u (fAtlasLocator g)) as [[Hin ->] | [Hnin ->]].
    + destruct (IH u) as [Hnd Hmem]. split; [exact Hnd |].
      intros k. rewrite Hmem, elem_of_cons. unfold glyphPlot at 2. simpl.
      split; [tauto |]. intros [[-> | Hk] Hu]; [done | by split].
    + destruct (IH (MakeUpdater (fPlotsToUpdate u ++ [plotKey (fAtlasLocator g)])))
        as [Hnd Hmem]. simpl in Hmem.
      split.
      * simpl. constructor; [| exact Hnd].
        rewrite Hmem. intros [_ Hk]. apply Hk, elem_of_app. right.
        apply list_elem_of_singleton. reflexivity.
      * intros k. simpl. rewrite !elem_of_cons, Hmem. unfold glyphPlot at 1 3. simpl.
        rewrite elem_of_app, list_elem_of_singleton.
        destruct (decide (k = plotKey (fAtlasLocator g))) as [-> | Hne]; tauto.
Qed.

Lemma marked_elem_of (glyphs : list (GrMaskFormat * GrGlyph)) :
  forall (u : BulkUseTokenUpdater) (fg : GrMaskFormat * GrGlyph),
    fg ∈ marked u glyphs -> fg ∈ glyphs.
Proof.
  induction glyphs as [| [f g] rest IH]; intros u fg; simpl.
  - intros H. exact H.
  - destruct (BulkUseTokenUpdater_add u (fAtlasLocator g)) as [[|] u1].
    + rewrite !elem_of_cons. intros [-> | H]; [by left | right; eauto].
    + intros H. apply list_elem_of_further. eauto.
Qed.

Lemma calls_keys (s : Sys) (token : nat) (fgs : list (GrMaskFormat * GrGlyph))
    (calls : list (Atlas * AtlasLocator * nat)) :
  Forall2 (fun fg c => callOf s token fg = Some c) fgs calls ->
  snd <$> (callPlot <$> calls) = glyphPlot <$> fgs.
Proof.
  induction 1 as [| [f g] c fgs calls Hc _ IH]; [reflexivity |].
  cbn [fmap list_fmap]. f_equal; [| exact IH].
  unfold callOf in Hc. cbn in Hc.
  destruct (atlasOf s f); [| discriminate Hc].
  inversion Hc; subst. reflexivity.
Qed.

Lemma calls_on_one_atlas (s : Sys) (token : nat) (a : Atlas)
    (fgs : list (GrMaskFormat * GrGlyph)) (calls : list (Atlas * AtlasLocator * nat)) :
  Forall2 (fun fg c => callOf s token fg = Some c) fgs calls ->
  (forall fg, fg ∈ fgs -> atlasOf s (fst fg) = Some a) ->
  callPlot <$> calls = (fun fg => (a, glyphPlot fg)) <$> fgs.
Proof.
  induction 1 as [| [f g] c fgs calls Hc _ IH]; intros Hall; [reflexivity |].
  cbn [fmap list_fmap]. f_equal.
  - pose proof (Hall (f, g) (list_elem_of_here _ _)) as Ha.
    unfold callOf in Hc. cbn in Hc, Ha. rewrite Ha in Hc.
    inversion Hc; subst. reflexivity.
  - apply IH. intros fg Hfg. by apply Hall, list_elem_of_further.
Qed.

(** One call, as the code has it: nothing happens when [add] answers false,
    and otherwise the atlas [getAtlas] returns is marked. *)
Lemma addGlyphToBulkAndSetUseToken_run (u : BulkUseTokenUpdater)
    (format : GrMaskFormat) (glyph : GrGlyph) (token : nat) (s : Sys) :
  let added := fst (BulkUseTokenUpdater_add u (fAtlasLocator glyph)) in
  let u' := snd (BulkUseTokenUpdater_add u (fAtlasLocator glyph)) in
  (added = false ->
     addGlyphToBulkAndSetUseToken u format glyph token s = Some (u', s))
  /\ (added = true ->
        forall (a : Atlas) (s1 : Sys),
          getAtlas format s = Some (a, s1) ->
          addGlyphToBulkAndSetUseToken u format glyph token s =
          Some (u', MakeSys (manager s1)
                            (GrDrawOpAtlas_setLastUseToken a (fAtlasLocator glyph) token
                                                           (world s1))
                            (trace s1 ++ [EvSetLastUseToken a (fAtlasLocator glyph) token])))
  /\ (added = true -> getAtlas format s = None ->
        addGlyphToBulkAndSetUseToken u format glyph token s = None).
Proof.
  unfold addGlyphToBulkAndSetUseToken.
  destruct (BulkUseTokenUpdater_add u (fAtlasLocator glyph)) as [added u'].
  cbn [fst snd]. split; [| split].
  - intros ->. reflexivity.
  - intros -> a s1 Hget. unfold bind at 1. rewrite Hget. reflexivity.
  - intros -> Hget. unfold bind at 1. rewrite Hget. reflexivity.
Qed.

Lemma addGlyphsToBulk_run (glyphs : list (GrMaskFormat * GrGlyph)) (token : nat) :
  forall (u : BulkUseTokenUpdater) (s : Sys),
    (forall fg, fg ∈ glyphs -> is_Some (atlasOf s (fst fg))) ->
    exists calls : list (Atlas * AtlasLocator * nat),
      Forall2 (fun fg c => callOf s token fg = Some c) (marked u glyphs) calls
      /\ addGlyphsToBulk u glyphs token s =
         Some (MakeUpdater (fPlotsToUpdate u ++ (glyphPlot <$> marked u glyphs)),
               MakeSys (manager s) (foldl applyCall (world s) calls)
                       (trace s ++ (callEvent <$> calls))).
Proof.
  induction glyphs as [| [f g] rest IH]; intros u s Hpresent.
  - exists []. split; [constructor |].
    destruct s as [m w tr], u as [plots]. cbn. rewrite !app_nil_r. reflexivity.
  - cbn [addGlyphsToBulk marked]. unfold bind at 1.
    destruct (addGlyphToBulkAndSetUseToken_run u f g token s) as (Hfalse & Htrue & _).
    destruct (BulkUseTokenUpdater_add_cases u (fAtlasLocator g))
      as [[Hin Hadd] | [Hnin Hadd]]; rewrite Hadd in *; cbn [fst snd] in *.
    + rewrite (Hfalse eq_refl).
      apply IH. intros fg Hfg. by apply Hpresent, list_elem_of_further.
    + destruct (Hpresent (f, g) (list_elem_of_here _ _)) as [a Ha]. cbn in Ha.
      rewrite (Htrue eq_refl a s (getAtlas_present f s a Ha)).
      set (s1 := MakeSys _ _ _).
      destruct (IH (MakeUpdater (fPlotsToUpdate u ++ [plotKey (fAtlasLocator g)])) s1)
        as (calls & Hcalls & Hrun).
      { intros fg Hfg. by apply Hpresent, list_elem_of_further. }
      exists ((a, fAtlasLocator g, token) :: calls). split.
      * constructor; [| exact Hcalls].
        unfold callOf. cbn. rewrite Ha. reflexivity.
      * rewrite Hrun. unfold s1. cbn. rewrite <- !app_assoc. reflexivity.
Qed.

(** C8, as the code has it.  One call marks nothing when the updater's [add]
    answers false, and otherwise calls [setLastUseToken] on the atlas
    [getAtlas] gives for the format.  Over a bulk list with one updater and
    one token, the formats having their atlases: the world and the trace
    change by exactly the [setLastUseToken] calls of the glyphs on which
    [add] answers true, in their order, each on the atlas of its format with
    the glyph's locator and the token; the manager is untouched and the
    updater has recorded those plots.  [add] sees the locator only, so plots
    are told apart by page and plot index: an index pair is marked exactly
    when the list references it and the updater had not recorded it, and
    never twice, so no plot of any atlas is marked twice; when all glyphs of
    the list belong to one atlas, each referenced plot of that atlas is
    marked once. *)
Theorem bulk_marks_each_plot_once
    (glyphs : list (GrMaskFormat * GrGlyph)) (u : BulkUseTokenUpdater)
    (token : nat) (s : Sys) :
  (forall fg, fg ∈ glyphs -> is_Some (atlasOf s (fst fg))) ->
  exists (u' : BulkUseTokenUpdater) (s' : Sys)
         (calls : list (Atlas * AtlasLocator * nat)),
    addGlyphsToBulk u glyphs token s = Some (u', s')
    /\ Forall2 (fun fg c => callOf s token fg = Some c) (marked u glyphs) calls
    /\ manager s' = manager s
    /\ world s' = foldl applyCall (world s) calls
    /\ trace s' = trace s ++ (callEvent <$> calls)
    /\ fPlotsToUpdate u' = fPlotsToUpdate u ++ (glyphPlot <$> marked u glyphs)
    /\ NoDup (glyphPlot <$> marked u glyphs)
    /\ NoDup (callPlot <$> calls)
    /\ (forall k : nat * nat,
          k ∈ glyphPlot <$> marked u glyphs <->
          k ∈ glyphPlot <$> glyphs /\ (k ∉ fPlotsToUpdate u))
    /\ (forall a : Atlas,
          (forall fg, fg ∈ glyphs -> atlasOf s (fst fg) = Some a) ->
          forall k : nat * nat,
            (a, k) ∈ callPlot <$> calls <->
            k ∈ glyphPlot <$> glyphs /\ (k ∉ fPlotsToUpdate u))
    /\ (forall (v : BulkUseTokenUpdater) (format : GrMaskFormat) (glyph : GrGlyph)
               (s0 : Sys),
          let added := fst (BulkUseTokenUpdater_add v (fAtlasLocator glyph)) in
          let v' := snd (BulkUseTokenUpdater_add v (fAtlasLocator glyph)) in
          (added = false ->
             addGlyphToBulkAndSetUseToken v format glyph token s0 = Some (v', s0))
          /\ (added = true ->
                forall (a : Atlas) (s1 : Sys),
                  getAtlas format s0 = Some (a, s1) ->
                  addGlyphToBulkAndSetUseToken v format glyph token s0 =
                  Some (v', MakeSys (manager s1)
                                    (GrDrawOpAtlas_setLastUseToken
                                       a (fAtlasLocator glyph) token (world s1))
                                    (trace s1
                                     ++ [EvSetLastUseToken a (fAtlasLocator glyph) token])))
          /\ (added = true -> getAtlas format s0 = None ->
                addGlyphToBulkAndSetUseToken v format glyph token s0 = None)).
Proof.
  intros Hpresent.
  destruct (addGlyphsToBulk_run glyphs token u s Hpresent) as (calls & Hcalls & Hrun).
  destruct (marked_plots glyphs u) as [Hnd Hmem].
  eexists _, _, calls. split; [exact Hrun |].
  cbn [manager world trace fPlotsToUpdate].
  split; [exact Hcalls |].
  split; [reflexivity |]. split; [reflexivity |]. split; [reflexivity |].
  split; [reflexivity |]. split; [exact Hnd |].
  split; [| split; [exact Hmem | split]].
  - apply (NoDup_fmap_1 snd). rewrite (calls_keys s token _ _ Hcalls). exact Hnd.
  - intros a Hall k. rewrite <- Hmem.
    rewrite (calls_on_one_atlas s token a _ _ Hcalls)
      by (intros fg Hfg; apply Hall; eapply marked_elem_of; exact Hfg).
    rewrite !list_elem_of_fmap. split.
    + intros (fg & Heq & Hfg). inversion Heq; subst. eauto.
    + intros (fg & -> & Hfg). eauto.
  - intros v format glyph s0.
    apply (addGlyphToBulkAndSetUseToken_run v format glyph token s0).
Qed.

End ManagerFacts.

(** ** Oversized requests *)

Section Oversized.
Import GrDrawOpAtlas.
Context {packer : RectPacker}.

(** C9.  A request wider or higher than a plot returns [kOversized] with no
    locator and leaves the atlas as it was: pages, plots, page order and
    upload queue are the ones before the call. *)
Theorem addToAtlas_oversized :
  forall (a : GrDrawOpAtlas.t) (width height : Z) (pixels : list Z),
    fPlotWidth a < width \/ fPlotHeight a < height ->
    GrDrawOpAtlas.addToAtlas a width height pixels = (kOversized, None, a).
Proof.
  intros a width height pixels Hbig. unfold GrDrawOpAtlas.addToAtlas.
  assert (Htest : (fPlotWidth a <? width) || (fPlotHeight a <? height) = true).
  { apply orb_true_iff. destruct Hbig as [H | H]; [left | right]; by apply Z.ltb_lt. }
  rewrite Htest. reflexivity.
Qed.

End Oversized.

(** ** The statements at concrete inputs *)

Section Instances.
Import GrDrawOpAtlas GrAtlasManager Fixture.

(** Two atlases live, one slot empty; [freeAll] empties all three, and the
    two atlases are deleted. *)
Lemma freeAll_clears_every_slot_witness :
  well_formed (sys [Some 1%nat; None; Some 2%nat] [true] 3)
  /\ freeAll (sys [Some 1%nat; None; Some 2%nat] [true] 3)
     = Some (tt, MakeSys (manager (sys [None; None; None] [true] 3))
                         (world (sys [None; None; None] [true] 3))
                         [EvDelete 1%nat; EvDelete 2%nat]).
Proof.
  assert (H : well_formed (sys [Some 1%nat; None; Some 2%nat] [true] 3))
    by reflexivity.
  split; [exact H |].
  exact (proj1 (freeAll_clears_every_slot
                  (sys [Some 1%nat; None; Some 2%nat] [true] 3) H)).
Defined.

(** The factory fails once and then succeeds: the first [initAtlas] for
    [kA565] returns false and leaves the slot null. *)
Lemma initAtlas_failure_not_cached_witness :
  fAtlases (manager (sys [None; None; None] [false; true] 7))
    !! MaskFormatToAtlasIndex kA565 = Some None
  /\ fst (GrDrawOpAtlas_Make
            (makeArgs (manager (sys [None; None; None] [false; true] 7)) kA565)
            (world (sys [None; None; None] [false; true] 7))) = None
  /\ exists s1 : Sys,
       initAtlas kA565 (sys [None; None; None] [false; true] 7) = Some (false, s1)
       /\ atlasOf s1 kA565 = None.
Proof.
  assert (H1 : fAtlases (manager (sys [None; None; None] [false; true] 7))
                 !! MaskFormatToAtlasIndex kA565 = Some None) by reflexivity.
  assert (H2 : fst (GrDrawOpAtlas_Make
                      (makeArgs (manager (sys [None; None; None] [false; true] 7)) kA565)
                      (world (sys [None; None; None] [false; true] 7))) = None)
    by reflexivity.
  split; [exact H1 | split; [exact H2 |]].
  destruct (initAtlas_failure_not_cached
              (sys [None; None; None] [false; true] 7) kA565 H1 H2)
    as (s1 & Hrun & _ & Hslot & _).
  exists s1. split; [exact Hrun | exact Hslot].
Defined.

(** Requests for a format that has its atlas, with a lookup in between. *)
Lemma existing_atlas_kept_witness :
  atlasOf (sys [Some 5%nat; None; None] [] 9) kA8 = Some 5%nat
  /\ atlasOf (MakeSys (manager (sys [Some 5%nat; None; None] [] 9))
                      (world (sys [Some 5%nat; None; None] [] 9))
                      [EvHasID 5%nat (fAtlasLocator (glyphAt 0 0))])
             kA8 = Some 5%nat.
Proof.
  assert (H1 : atlasOf (sys [Some 5%nat; None; None] [] 9) kA8 = Some 5%nat)
    by reflexivity.
  split; [exact H1 |].
  refine (proj1 (existing_atlas_kept
                   [OpInitAtlas kA8; OpHasGlyph kA8 (glyphAt 0 0); OpInitAtlas kA8]
                   (sys [Some 5%nat; None; None] [] 9) _ kA8 5%nat H1 _ _)).
  - intros op Hop.
    repeat (apply elem_of_cons in Hop as [-> | Hop]; [reflexivity |]).
    by apply elem_of_nil in Hop.
  - reflexivity.
Defined.

(** C7, as stated.  The testing reset followed by a request for [kA8]: no
    [freeAll] is among the operations, and the slot of [kA8], which held
    atlas 5, holds the newly constructed atlas 9. *)
Lemma atlas_replaced_without_freeAll :
  (OpFreeAll ∉ [OpSetAtlasDimensionsToMinimum_ForTesting; OpInitAtlas kA8])
  /\ atlasOf (sys [Some 5%nat; None; None] [true] 9) kA8 = Some 5%nat
  /\ exists s' : Sys,
       run_ops [OpSetAtlasDimensionsToMinimum_ForTesting; OpInitAtlas kA8]
               (sys [Some 5%nat; None; None] [true] 9) = Some (tt, s')
       /\ atlasOf s' kA8 = Some 9%nat
       /\ atlasOf s' kA8 <> Some 5%nat.
Proof.
  split; [| split; [reflexivity |]].
  - intros Hin.
    repeat (apply elem_of_cons in Hin as [Hin | Hin]; [discriminate Hin |]).
    by apply elem_of_nil in Hin.
  - eexists. split; [vm_compute; reflexivity |].
    split; [reflexivity | discriminate].
Qed.

(** A 17 by 3 request against 16 by 16 plots. *)
Lemma addToAtlas_oversized_witness :
  (fPlotWidth atlas16 < 17 \/ fPlotHeight atlas16 < 3)
  /\ GrDrawOpAtlas.addToAtlas atlas16 17 3 [] = (kOversized, None, atlas16).
Proof.
  assert (H : fPlotWidth atlas16 < 17 \/ fPlotHeight atlas16 < 3)
    by (left; reflexivity).
  split; [exact H |].
  exact (addToAtlas_oversized atlas16 17 3 [] H).
Defined.

End Instances.

Section LedgerInstances.
Import GrDrawOpAtlas GrAtlasManager Ledger.

(** A bulk list for [kA8], whose atlas is 7, that names plot (0,1) three
    times and plot (1,1) once: the ledger shows two [setLastUseToken] calls
    on atlas 7, one for each plot. *)
Lemma bulk_marks_each_plot_once_witness :
  exists (u' : BulkUseTokenUpdater) (s' : Sys),
    addGlyphsToBulk BulkUseTokenUpdater_new
      [(Fixture.kA8, Fixture.glyphAt 0 1); (Fixture.kA8, Fixture.glyphAt 0 1);
       (Fixture.kA8, Fixture.glyphAt 1 1); (Fixture.kA8, Fixture.glyphAt 0 1)]
      5 (sys [Some 7%nat; None; Some 8%nat]) = Some (u', s')
    /\ world s' = [LastUse 7 0 1 5; LastUse 7 1 1 5]
    /\ fPlotsToUpdate u' = [(0%nat, 1%nat); (1%nat, 1%nat)].
Proof.
  assert (Hpresent :
            forall fg,
              fg ∈ [(Fixture.kA8, Fixture.glyphAt 0 1); (Fixture.kA8, Fixture.glyphAt 0 1);
                    (Fixture.kA8, Fixture.glyphAt 1 1); (Fixture.kA8, Fixture.glyphAt 0 1)] ->
              is_Some (atlasOf (sys [Some 7%nat; None; Some 8%nat]) (fst fg))).
  { intros fg Hfg.
    repeat (apply elem_of_cons in Hfg as [-> | Hfg]; [eexists; reflexivity |]).
    by apply elem_of_nil in Hfg. }
  destruct (bulk_marks_each_plot_once _ BulkUseTokenUpdater_new 5 _ Hpresent)
    as (u' & s' & calls & Hrun & _).
  exists u', s'. split; [exact Hrun |].
  vm_compute in Hrun. injection Hrun as <- <-. split; reflexivity.
Defined.

(** C8, as stated.  Two glyphs with the same locator, plot 1 of page 0, the
    first for [kA8], whose atlas is 7, the second for [kARGB], whose atlas is
    8, and one updater: the list references two distinct plots, plot (0,1)
    of atlas 7 and plot (0,1) of atlas 8.  [add] is given the locator only
    and answers false for the second glyph: the run makes one call, on atlas
    7, and the plot of atlas 8 is not marked. *)
Lemma bulk_mixed_formats_plot_unmarked :
  atlasOf (sys [Some 7%nat; None; Some 8%nat]) Fixture.kA8 = Some 7%nat
  /\ atlasOf (sys [Some 7%nat; None; Some 8%nat]) Fixture.kARGB = Some 8%nat
  /\ callPlot <$> omap (callOf (sys [Some 7%nat; None; Some 8%nat]) 5)
                       [(Fixture.kA8, Fixture.glyphAt 0 1);
                        (Fixture.kARGB, Fixture.glyphAt 0 1)]
     = [(7%nat, (0%nat, 1%nat)); (8%nat, (0%nat, 1%nat))]
  /\ exists (u' : BulkUseTokenUpdater) (s' : Sys),
       addGlyphsToBulk BulkUseTokenUpdater_new
         [(Fixture.kA8, Fixture.glyphAt 0 1); (Fixture.kARGB, Fixture.glyphAt 0 1)]
         5 (sys [Some 7%nat; None; Some 8%nat]) = Some (u', s')
       /\ world s' = [LastUse 7 0 1 5]
       /\ trace s' = [EvSetLastUseToken 7%nat (fAtlasLocator (Fixture.glyphAt 0 1)) 5]
       /\ (forall (l : AtlasLocator) (token : nat),
             EvSetLastUseToken 8%nat l token ∉ trace s').
Proof.
  split; [reflexivity | split; [reflexivity | split; [reflexivity |]]].
  eexists _, _. split; [vm_compute; reflexivity |].
  split; [reflexivity | split; [reflexivity |]].
  intros l token Hin. cbn in Hin.
  apply list_elem_of_singleton in Hin. discriminate Hin.
Qed.

End LedgerInstances.

(** * Part III: the code beyond the claims *)

(** ** Domains as values *)

Section DomainRelation.
Import GrTextureDomain.

Lemma compare_is_Eq (c : comparison) :
  match c with Eq => true | _ => false end = true <-> c = Eq.
Proof. destruct c; split; congruence. Qed.

Lemma finite_compare_Eq (neg : bool) m e m' e' :
  match (if neg
         then match e ?= e' with
              | Eq => CompOpp (Pos.compare_cont Eq m m')
              | Lt => Gt
              | Gt => Lt
              end
         else match e ?= e' with
              | Eq => Pos.compare_cont Eq m m'
              | Lt => Lt
              | Gt => Gt
              end)
  with Eq => true | _ => false end = true
  <-> e = e' /\ m = m'.
Proof.
  rewrite compare_is_Eq. fold (Pos.compare m m').
  destruct (Z.compare_spec e e') as [He | He | He],
           (Pos.compare_spec m m') as [Hm | Hm | Hm], neg; simpl;
    split; try discriminate; try (intros [? ?]; lia); intros _; split; assumption.
Qed.

Lemma SkScalar_eqb_norm x y :
  SkScalar.eqb x y = true <->
  SkScalar.is_nan x = false /\ SkScalar_norm x = SkScalar_norm y.
Proof.
  unfold SkScalar.eqb, SFeqb, SFcompare.
  destruct x as [s | s | | s m e], y as [s' | s' | | s' m' e'];
    cbn [SkScalar.is_nan SkScalar_norm].
  all: try (split; [discriminate | intros [H1 H2]; discriminate]).
  all: try (destruct s, s';
            (split; [first [discriminate | intros _; split; reflexivity]
                    | first [reflexivity | intros [_ H]; discriminate H]]); fail).
  destruct s, s'.
    + rewrite (finite_compare_Eq true). split.
      * intros [-> ->]. split; reflexivity.
      * intros [_ H]. inversion H. split; reflexivity.
    + split; [discriminate | intros [_ H]; discriminate H].
    + split; [discriminate | intros [_ H]; discriminate H].
    + rewrite (finite_compare_Eq false). split.
      * intros [-> ->]. split; reflexivity.
      * intros [_ H]. inversion H. split; reflexivity.
Qed.

Lemma SkScalar_norm_nan x y :
  SkScalar_norm x = SkScalar_norm y -> SkScalar.is_nan x = SkScalar.is_nan y.
Proof. destruct x, y; simpl; intros H; first [reflexivity | discriminate H]. Qed.

Lemma SkScalar_eqb_sym x y : SkScalar.eqb x y = SkScalar.eqb y x.
Proof.
  apply eq_true_iff_eq. rewrite !SkScalar_eqb_norm. split.
  - intros [Hn He]. split; [rewrite <- (SkScalar_norm_nan _ _ He); exact Hn | congruence].
  - intros [Hn He]. split; [rewrite <- (SkScalar_norm_nan _ _ He); exact Hn | congruence].
Qed.

Lemma SkScalar_eqb_trans x y z :
  SkScalar.eqb x y = true -> SkScalar.eqb y z = true -> SkScalar.eqb x z = true.
Proof.
  rewrite !SkScalar_eqb_norm. intros [Hn He] [Hn' He']. split; congruence.
Qed.

Lemma Mode_eqb_sym a b : Mode_eqb a b = Mode_eqb b a.
Proof. unfold Mode_eqb. apply Z.eqb_sym. Qed.

(** X1.  [operator==] is symmetric and transitive on all domains, NaN edges
    included, and [operator!=] is true exactly when [operator==] is false. *)
Theorem operator_eq_symmetric_transitive :
  (forall a b : GrTextureDomain.t, operator_eq a b = operator_eq b a)
  /\ (forall a b c : GrTextureDomain.t,
        operator_eq a b = true -> operator_eq b c = true -> operator_eq a c = true)
  /\ (forall a b : GrTextureDomain.t,
        operator_ne a b = true <-> operator_eq a b = false).
Proof.
  split; [| split].
  - intros a b. unfold operator_eq.
    rewrite (Mode_eqb_sym (fModeX a)), (Mode_eqb_sym (fModeY a)).
    rewrite (SkScalar_eqb_sym (fLeft (fDomain a))), (SkScalar_eqb_sym (fRight (fDomain a))),
            (SkScalar_eqb_sym (fTop (fDomain a))), (SkScalar_eqb_sym (fBottom (fDomain a))).
    destruct (Mode_eqb (fModeX b) (fModeX a)) eqn:Hx;
      [apply Mode_eqb_eq in Hx; rewrite Hx | reflexivity].
    destruct (Mode_eqb (fModeY b) (fModeY a)) eqn:Hy;
      [apply Mode_eqb_eq in Hy; rewrite Hy | reflexivity].
    reflexivity.
  - intros a b c Hab Hbc.
    apply operator_eq_true_iff in Hab as (Hx & Hy & HX & HY).
    apply operator_eq_true_iff in Hbc as (Hx' & Hy' & HX' & HY').
    apply operator_eq_true_iff. unfold edges_equal in *.
    split; [congruence | split; [congruence | split]].
    + intros Hne. destruct (HX Hne) as [H1 H2].
      destruct HX' as [H3 H4]; [congruence |].
      split; eapply SkScalar_eqb_trans; eassumption.
    + intros Hne. destruct (HY Hne) as [H1 H2].
      destruct HY' as [H3 H4]; [congruence |].
      split; eapply SkScalar_eqb_trans; eassumption.
  - intros a b. unfold operator_ne. apply negb_true_iff.
Qed.

Import GrTextureDomain.GLDomain.

(** X2.  The key holds the X mode in its low [kModeBits] bits and the Y mode
    in the bits above: masking gives back the X mode, shifting the Y mode,
    and every key is below [2^(2 * kModeBits)] = 64. *)
Theorem DomainKey_layout :
  forall d : GrTextureDomain.t,
    Z.land (DomainKey d) (Z.shiftl 1 kModeBits - 1) = Mode_value (modeX d)
    /\ Z.shiftr (DomainKey d) kModeBits = Mode_value (modeY d)
    /\ 0 <= DomainKey d < 2 ^ (2 * kModeBits).
Proof.
  intros d. unfold DomainKey, modeX, modeY.
  destruct (fModeX d), (fModeY d); vm_compute; intuition congruence.
Qed.

(** X3.  The key of a domain fits in [kDomainKeyBits] bits exactly when the
    Y mode is ignore or clamp. *)
Theorem DomainKey_fits_iff :
  forall d : GrTextureDomain.t,
    fits_in_key_bits (DomainKey d) <->
    (modeY d = kIgnore_Mode \/ modeY d = kClamp_Mode).
Proof.
  intros d. rewrite DomainKey_value. unfold fits_in_key_bits, kDomainKeyBits, modeY.
  pose proof (Mode_value_range (fModeX d)) as Hx. unfold kModeCount in Hx. simpl in Hx.
  destruct (fModeY d); simpl Mode_value; split;
    try (intros _; (left; reflexivity) || (right; reflexivity));
    try (intros [H | H]; discriminate H);
    try (intros H; simpl in H; lia);
    try (intros _; simpl; lia).
Qed.

End DomainRelation.

(** ** Texel domains are finite and sorted *)

Section TexelDomainFacts.
Import GrTextureDomain.

Lemma binary_round_aux_wellformed s m e l :
  -149 <= e -> SkScalar_wellformed (binary_round_aux 24 128 s (Z.pos m) e l).
Proof.
  intros He. unfold binary_round_aux.
  destruct (shr_fexp_pos m e l He) as [Hm1 He1].
  destruct (shr_fexp 24 128 (Z.pos m) e l) as [mrs1 e1]. cbn [fst snd] in Hm1, He1.
  pose proof (round_nearest_even_ge (shr_m mrs1) (loc_of_shr_record mrs1)) as Hge.
  destruct (round_nearest_even (shr_m mrs1) (loc_of_shr_record mrs1)) as [| m2 | m2];
    try lia.
  destruct (shr_fexp_pos m2 e1 loc_Exact He1) as [Hm2 He2].
  destruct (shr_fexp 24 128 (Z.pos m2) e1 loc_Exact) as [mrs2 e2].
  cbn [fst snd] in Hm2, He2.
  destruct (shr_m mrs2) as [| m3 | m3]; try lia.
  destruct (e2 <=? 128 - 24); simpl; [exact He2 | exact I].
Qed.

Lemma binary_normalize_wellformed z e :
  -149 <= e -> SkScalar_wellformed (binary_normalize 24 128 z e false).
Proof.
  intros He.
  assert (Hround : forall s m, SkScalar_wellformed (binary_round 24 128 s m e)).
  { intros s m. unfold binary_round, shl_align.
    fold (SkScalar.fexp32 (Z.pos (digits2_pos m) + e)). rewrite fexp32_eq.
    destruct (Z.max (Z.pos (digits2_pos m) + e - 24) (-149) - e) as [| p | p] eqn:Hn;
      apply binary_round_aux_wellformed; lia. }
  destruct z as [| m | m]; [exact I | apply Hround | apply Hround].
Qed.

Lemma of_int_wellformed z : SkScalar_wellformed (SkScalar.of_int z).
Proof. apply binary_normalize_wellformed. lia. Qed.

Lemma add_wellformed x y :
  SkScalar_wellformed x -> SkScalar_wellformed y ->
  SkScalar_wellformed (SkScalar.add x y) \/ exists s, x = S754_infinity s.
Proof.
  intros Hx Hy.
  destruct x as [s | s | | s m e], y as [s' | s' | | s' m' e'];
    simpl in Hx, Hy; try contradiction; try (right; eauto; fail); left;
    first [ exact I | exact Hy | exact Hx
          | destruct s, s'; exact I
          | apply binary_normalize_wellformed; lia ].
Qed.

Lemma sub_wellformed x y :
  SkScalar_wellformed x -> SkScalar_wellformed y ->
  SkScalar_wellformed (SkScalar.sub x y) \/ exists s, x = S754_infinity s.
Proof.
  intros Hx Hy.
  destruct x as [s | s | | s m e], y as [s' | s' | | s' m' e'];
    simpl in Hx, Hy; try contradiction; try (right; eauto; fail); left;
    first [ exact I | exact Hy | exact Hx
          | destruct s, s'; exact I
          | apply binary_normalize_wellformed; lia ].
Qed.

Lemma wellformed_not_nan x : SkScalar_wellformed x -> SkScalar.is_nan x = false.
Proof. destruct x; simpl; intros H; first [reflexivity | destruct H]. Qed.

Lemma axis_inset_wellformed m ext : SkScalar_wellformed (axis_inset m ext).
Proof.
  unfold axis_inset.
  destruct ((Mode_eqb m kClamp_Mode || Mode_eqb m kDecal_Mode) && (0 <? ext));
    simpl; [lia | exact I].
Qed.

Lemma add_inset_not_nan z m ext :
  SkScalar.is_nan (SkScalar.add (SkScalar.of_int z) (axis_inset m ext)) = false.
Proof.
  destruct (add_wellformed _ _ (of_int_wellformed z) (axis_inset_wellformed m ext))
    as [H | [s Hs]].
  - apply wellformed_not_nan, H.
  - rewrite Hs. unfold axis_inset.
    destruct ((Mode_eqb m kClamp_Mode || Mode_eqb m kDecal_Mode) && (0 <? ext));
      destruct s; reflexivity.
Qed.

Lemma sub_inset_not_nan z m ext :
  SkScalar.is_nan (SkScalar.sub (SkScalar.of_int z) (axis_inset m ext)) = false.
Proof.
  destruct (sub_wellformed _ _ (of_int_wellformed z) (axis_inset_wellformed m ext))
    as [H | [s Hs]].
  - apply wellformed_not_nan, H.
  - rewrite Hs. unfold axis_inset.
    destruct ((Mode_eqb m kClamp_Mode || Mode_eqb m kDecal_Mode) && (0 <? ext));
      destruct s; reflexivity.
Qed.

(** X4.  No edge of a texel domain is a NaN, for every integer rectangle and
    every pair of modes; so a domain built on [MakeTexelDomain] equals itself
    under [operator==], whatever modes and indices it is given. *)
Theorem MakeTexelDomain_never_nan :
  forall (r : SkIRect) (modeX modeY : Mode),
    let d := MakeTexelDomain r modeX modeY in
    SkScalar.is_nan (fLeft d) = false /\ SkScalar.is_nan (fTop d) = false
    /\ SkScalar.is_nan (fRight d) = false /\ SkScalar.is_nan (fBottom d) = false
    /\ (forall (mx my : Mode) (i j : Z),
          operator_eq (Build d mx my i) (Build d mx my j) = true).
Proof.
  intros r modeX modeY d.
  assert (HL : SkScalar.is_nan (fLeft d) = false)
    by (unfold d; rewrite MakeTexelDomain_unfold; apply add_inset_not_nan).
  assert (HT : SkScalar.is_nan (fTop d) = false)
    by (unfold d; rewrite MakeTexelDomain_unfold; apply add_inset_not_nan).
  assert (HR : SkScalar.is_nan (fRight d) = false)
    by (unfold d; rewrite MakeTexelDomain_unfold; apply sub_inset_not_nan).
  assert (HB : SkScalar.is_nan (fBottom d) = false)
    by (unfold d; rewrite MakeTexelDomain_unfold; apply sub_inset_not_nan).
  repeat (split; [assumption |]).
  intros mx my i j. apply operator_eq_true_iff. cbn [fDomain fModeX fModeY].
  unfold edges_equal.
  repeat split; try reflexivity; intros; apply SkScalar_eqb_refl; assumption.
Qed.

Lemma axis_sorted_within m lo hi :
  texel_exact lo -> texel_exact hi -> lo <= hi ->
  axis_within lo hi
    (SkScalar.add (SkScalar.of_int lo) (axis_inset m (wrap_s32 (hi - lo))))
    (SkScalar.sub (SkScalar.of_int hi) (axis_inset m (wrap_s32 (hi - lo)))).
Proof.
  intros Hlo Hhi Hle. pose proof (axis_exact m lo hi Hlo Hhi) as H.
  unfold axis_domain, axis_within, SkScalar.has_value in *.
  destruct (insets m && (0 <? hi - lo)) eqn:Hin.
  - apply andb_true_iff in Hin as [_ Hext]. apply Z.ltb_lt in Hext.
    destruct H as [Hl Hh].
    destruct (SkScalar.to_Q _) as [vlo |]; [| destruct Hl].
    destruct (SkScalar.to_Q (SkScalar.sub _ _)) as [vhi |]; [| destruct Hh].
    exists vlo, vhi.
    split; [reflexivity | split; [reflexivity |]].
    repeat split; rewrite ?Hl, ?Hh;
      unfold Qle, Qplus, Qminus, Qopp, inject_Z; simpl; lia.
  - destruct H as (_ & _ & Hl & Hh).
    destruct (SkScalar.to_Q _) as [vlo |]; [| destruct Hl].
    destruct (SkScalar.to_Q (SkScalar.sub _ _)) as [vhi |]; [| destruct Hh].
    exists vlo, vhi.
    split; [reflexivity | split; [reflexivity |]].
    repeat split; rewrite ?Hl, ?Hh; unfold Qle, inject_Z; simpl; lia.
Qed.

(** X5.  For a sorted integer rectangle with coordinates strictly between
    -2^23 and 2^23, the texel domain is finite, sorted and inside the
    rectangle on both axes: the inset never inverts an axis, an axis without
    extent is left as it is. *)
Theorem MakeTexelDomain_sorted_within (r : SkIRect) (modeX modeY : Mode) :
  SkIRect_exact r ->
  iLeft r <= iRight r -> iTop r <= iBottom r ->
  let d := MakeTexelDomain r modeX modeY in
  axis_within (iLeft r) (iRight r) (fLeft d) (fRight d)
  /\ axis_within (iTop r) (iBottom r) (fTop d) (fBottom d).
Proof.
  intros (Hl & Ht & Hr & Hb) HX HY d. unfold d. rewrite MakeTexelDomain_unfold.
  cbn [fLeft fTop fRight fBottom].
  split; apply axis_sorted_within; assumption.
Qed.

(** A rectangle without width: the X axis stays at 3, the Y axis is inset. *)
Lemma MakeTexelDomain_sorted_within_witness :
  axis_within 3 3
    (fLeft (MakeTexelDomain (MakeIRect 3 (-2) 3 6) kClamp_Mode kDecal_Mode))
    (fRight (MakeTexelDomain (MakeIRect 3 (-2) 3 6) kClamp_Mode kDecal_Mode))
  /\ axis_within (-2) 6
       (fTop (MakeTexelDomain (MakeIRect 3 (-2) 3 6) kClamp_Mode kDecal_Mode))
       (fBottom (MakeTexelDomain (MakeIRect 3 (-2) 3 6) kClamp_Mode kDecal_Mode)).
Proof.
  refine (MakeTexelDomain_sorted_within (MakeIRect 3 (-2) 3 6) kClamp_Mode kDecal_Mode
            _ _ _).
  - unfold SkIRect_exact, texel_exact. simpl. lia.
  - simpl. lia.
  - simpl. lia.
Defined.

End TexelDomainFacts.

(** ** More on the atlas manager *)

Section ManagerMore.
Import GrDrawOpAtlas GrAtlasManager.
Context {C : Collaborators}.

Lemma cleared_well_formed s : well_formed (cleared s).
Proof. unfold well_formed, cleared. simpl. apply length_replicate. Qed.

Lemma heldAtlases_replicate_None (n : nat) :
  heldAtlases (replicate n (@None Atlas)) = [].
Proof. induction n as [| n IH]; [reflexivity | exact IH]. Qed.

Lemma cleared_cleared s : cleared (cleared s) = cleared s.
Proof.
  unfold cleared. cbn [manager world trace fAtlases with_atlases
                       fAllowMultitexturing fAtlasConfig].
  rewrite heldAtlases_replicate_None. cbn. rewrite app_nil_r. reflexivity.
Qed.

(** X6.  [freeAll] deletes each atlas the slots hold, once and in the order
    of the slots, and touches nothing else of the world; it leaves the size
    configuration and the multitexturing flag alone.  A second [freeAll]
    changes nothing: there is no atlas left to delete. *)
Theorem freeAll_idempotent (s : Sys) :
  well_formed s ->
  exists s1 : Sys,
    freeAll s = Some (tt, s1)
    /\ freeAll s1 = Some (tt, s1)
    /\ well_formed s1
    /\ heldAtlases (fAtlases (manager s1)) = []
    /\ fAtlasConfig (manager s1) = fAtlasConfig (manager s)
    /\ fAllowMultitexturing (manager s1) = fAllowMultitexturing (manager s)
    /\ world s1 = deleteAll (heldAtlases (fAtlases (manager s))) (world s)
    /\ trace s1 = trace s ++ (EvDelete <$> heldAtlases (fAtlases (manager s))).
Proof.
  intros Hwf. exists (cleared s).
  split; [apply (freeAll_run s Hwf) |].
  split; [| split; [apply cleared_well_formed | split; [| repeat split]]].
  - rewrite (freeAll_run (cleared s) (cleared_well_formed s)), cleared_cleared.
    reflexivity.
  - unfold cleared. cbn. apply heldAtlases_replicate_None.
Qed.

(** X7.  [setAtlasDimensionsToMinimum_ForTesting] nulls every slot, deletes
    the atlases the slots held, once each and in the order of the slots, and
    installs the default configuration; the world changes by these deletions
    only.  The next [initAtlas] then asks the factory, in the world the
    deletions left, for an atlas with the atlas and plot dimensions of the
    default configuration and the unchanged multitexturing flag, stores what
    the factory returns and returns whether that is an atlas. *)
Theorem testing_reset_then_default_dimensions (s : Sys) (format : GrMaskFormat) :
  well_formed s ->
  (MaskFormatToAtlasIndex format < kMaskFormatCount)%nat ->
  exists s1 : Sys,
    setAtlasDimensionsToMinimum_ForTesting s = Some (tt, s1)
    /\ fAtlases (manager s1) = replicate kMaskFormatCount None
    /\ fAtlasConfig (manager s1) = GrDrawOpAtlasConfig_default
    /\ fAllowMultitexturing (manager s1) = fAllowMultitexturing (manager s)
    /\ world s1 = deleteAll (heldAtlases (fAtlases (manager s))) (world s)
    /\ trace s1 = trace s ++ (EvDelete <$> heldAtlases (fAtlases (manager s)))
    /\ exists (r : bool) (s2 : Sys) (args : MakeArgs GrBackendFormat GrColorType),
         initAtlas format s1 = Some (r, s2)
         /\ trace s2 = trace s1 ++ [EvMake (MaskFormatToAtlasIndex format) args]
         /\ world s2 = snd (GrDrawOpAtlas_Make args (world s1))
         /\ atlasOf s2 format = fst (GrDrawOpAtlas_Make args (world s1))
         /\ r = bool_decide (is_Some (atlasOf s2 format))
         /\ mkWidth _ _ args = szWidth (atlasDimensions GrDrawOpAtlasConfig_default format)
         /\ mkHeight _ _ args = szHeight (atlasDimensions GrDrawOpAtlasConfig_default format)
         /\ mkPlotWidth _ _ args = szWidth (plotDimensions GrDrawOpAtlasConfig_default format)
         /\ mkPlotHeight _ _ args
            = szHeight (plotDimensions GrDrawOpAtlasConfig_default format)
         /\ mkAllowMultitexturing _ _ args = fAllowMultitexturing (manager s).
Proof.
  intros Hwf Hidx. eexists.
  split; [apply (setAtlasDimensionsToMinimum_ForTesting_run s Hwf) |].
  cbn [manager world trace fAtlases fAtlasConfig fAllowMultitexturing cleared].
  do 5 (split; [reflexivity |]).
  set (s1 := MakeSys _ _ _).
  assert (Hslot : fAtlases (manager s1) !! MaskFormatToAtlasIndex format = Some None)
    by (unfold s1; simpl; by apply lookup_replicate_2).
  assert (Hlt : (MaskFormatToAtlasIndex format < length (fAtlases (manager s1)))%nat)
    by (eapply lookup_lt_Some; exact Hslot).
  eexists _, _, _. split; [apply (initAtlas_absent format s1 Hslot) |].
  rewrite (constructed_atlasOf s1 format Hlt).
  unfold constructed. cbn [trace world]. split; [reflexivity |].
  repeat split.
Qed.

Lemma initAtlas_result format s r s' :
  initAtlas format s = Some (r, s') ->
  (r = true <-> is_Some (atlasOf s' format))
  /\ (r = false -> manager s' = manager s)
  /\ fAtlasConfig (manager s') = fAtlasConfig (manager s)
  /\ fAllowMultitexturing (manager s') = fAllowMultitexturing (manager s)
  /\ length (fAtlases (manager s')) = length (fAtlases (manager s))
  /\ (forall i : nat, i <> MaskFormatToAtlasIndex format ->
        fAtlases (manager s') !! i = fAtlases (manager s) !! i).
Proof.
  intros H.
  destruct (fAtlases (manager s) !! MaskFormatToAtlasIndex format)
    as [[a |] |] eqn:Hslot.
  - rewrite (initAtlas_present format s a Hslot) in H. inversion H; subst.
    repeat split; try reflexivity; try discriminate.
    intros _. unfold atlasOf. rewrite Hslot. eauto.
  - rewrite (initAtlas_absent format s Hslot) in H. inversion H; subst. clear H.
    assert (Hlt : (MaskFormatToAtlasIndex format < length (fAtlases (manager s)))%nat)
      by (eapply lookup_lt_Some; exact Hslot).
    rewrite (constructed_atlasOf s format Hlt).
    split; [| split; [| split; [reflexivity | split; [reflexivity | split]]]].
    + split; intros Hb.
      * by apply bool_decide_eq_true_1 in Hb.
      * by apply bool_decide_eq_true_2.
    + intros Hb. apply bool_decide_eq_false_1 in Hb.
      unfold constructed. simpl.
      destruct (fst (GrDrawOpAtlas_Make (makeArgs (manager s) format) (world s)))
        as [a |] eqn:Hmade; [exfalso; apply Hb; eauto |].
      rewrite list_insert_id by exact Hslot. destruct (manager s); reflexivity.
    + unfold constructed. simpl. apply length_insert.
    + intros i Hi. unfold constructed. simpl.
      apply list_lookup_insert_ne. congruence.
  - unfold initAtlas, bind, readAtlas in H. rewrite Hslot in H. discriminate H.
Qed.

(** X8.  With its index inside the array, [initAtlas] returns; it returns
    true exactly when the format has an atlas afterwards, a false result
    leaves the manager as it was, and the slots of the other formats and the
    length of the array are never changed. *)
Theorem initAtlas_postcondition (s : Sys) (format : GrMaskFormat) :
  (MaskFormatToAtlasIndex format < length (fAtlases (manager s)))%nat ->
  exists (r : bool) (s' : Sys),
    initAtlas format s = Some (r, s')
    /\ (r = true <-> is_Some (atlasOf s' format))
    /\ (r = false -> manager s' = manager s)
    /\ length (fAtlases (manager s')) = length (fAtlases (manager s))
    /\ (forall other : GrMaskFormat,
          MaskFormatToAtlasIndex other <> MaskFormatToAtlasIndex format ->
          atlasOf s' other = atlasOf s other).
Proof.
  intros Hlt. destruct (initAtlas_total format s Hlt) as (r & s' & Hrun).
  exists r, s'. split; [exact Hrun |].
  destruct (initAtlas_result format s r s' Hrun) as (H1 & H2 & _ & _ & H5 & H6).
  repeat split; try apply H1; try assumption.
  intros other Hne. unfold atlasOf. rewrite H6 by exact Hne. reflexivity.
Qed.

(** X9.  On a format that has its atlas, [hasGlyph] and [addToAtlas] call
    that atlas once and return its answer unchanged, error code and locator
    included; the manager itself is not modified and no atlas is
    constructed. *)
Theorem operations_forward_to_atlas (s : Sys) (format : GrMaskFormat) (a : Atlas) :
  atlasOf s format = Some a ->
  (forall glyph : GrGlyph,
     hasGlyph format glyph s =
     Some (GrDrawOpAtlas_hasID a (fAtlasLocator glyph) (world s),
           MakeSys (manager s) (world s)
                   (trace s ++ [EvHasID a (fAtlasLocator glyph)])))
  /\ (forall (width height : Z) (image : list Z) (loc : AtlasLocator),
        GrAtlasManager.addToAtlas format width height image loc s =
        Some (fst (GrDrawOpAtlas_addToAtlas a width height image loc (world s)),
              MakeSys (manager s)
                      (snd (GrDrawOpAtlas_addToAtlas a width height image loc (world s)))
                      (trace s ++ [EvAddToAtlas a width height]))).
Proof.
  intros Ha. split.
  - intros glyph. unfold hasGlyph, bind at 1. rewrite (getAtlas_present format s a Ha).
    reflexivity.
  - intros width height image loc. unfold GrAtlasManager.addToAtlas, bind at 1.
    rewrite (getAtlas_present format s a Ha).
    unfold bind, emit, call. simpl.
    destruct (GrDrawOpAtlas_addToAtlas a width height image loc (world s))
      as [[code loc'] w']. reflexivity.
Qed.

Lemma for_each_write_frame (idxs : list nat) (v : option Atlas) s s' :
  for_each idxs (fun i => assignAtlas i v) s = Some (tt, s') ->
  length (fAtlases (manager s')) = length (fAtlases (manager s))
  /\ fAtlasConfig (manager s') = fAtlasConfig (manager s)
  /\ fAllowMultitexturing (manager s') = fAllowMultitexturing (manager s).
Proof.
  revert s. induction idxs as [| i idxs IH]; intros s H.
  - inversion H; subst. repeat split.
  - simpl in H. unfold bind at 1 in H.
    destruct (fAtlases (manager s) !! i) as [old |] eqn:Hold.
    + rewrite (assignAtlas_run i v old s Hold) in H.
      apply IH in H as (H1 & H2 & H3). simpl in *.
      rewrite length_insert in H1. repeat split; assumption.
    + unfold assignAtlas, bind, readAtlas in H. rewrite Hold in H. discriminate H.
Qed.

Lemma getAtlas_frame format s a s' :
  getAtlas format s = Some (a, s') ->
  same_shape s s' /\ fAtlasConfig (manager s') = fAtlasConfig (manager s).
Proof.
  unfold getAtlas, bind at 1. intros H.
  destruct (initAtlas format s) as [[r s1] |] eqn:Hinit; [| discriminate H].
  destruct r; [| discriminate H].
  unfold bind, readAtlas in H.
  destruct (fAtlases (manager s1) !! MaskFormatToAtlasIndex format) as [[x |] |];
    try discriminate H.
  inversion H; subst.
  destruct (initAtlas_result format s true s' Hinit) as (_ & _ & H3 & H4 & H5 & _).
  repeat split; assumption.
Qed.

Lemma run_op_frame op s s' :
  run_op op s = Some (tt, s') ->
  same_shape s s'
  /\ (op <> OpSetAtlasDimensionsToMinimum_ForTesting ->
      fAtlasConfig (manager s') = fAtlasConfig (manager s)).
Proof.
  destruct op as [| | f | f g | f w h im l | u f g tok]; simpl; intros H.
  - apply for_each_write_frame in H as (H1 & H2 & H3). repeat split; auto.
  - unfold setAtlasDimensionsToMinimum_ForTesting, bind in H.
    destruct (for_upto _ _ s) as [[[] s1] |] eqn:Hloop; [| discriminate H].
    apply for_each_write_frame in Hloop as (H1 & H2 & H3).
    unfold setConfig in H. inversion H; subst. simpl.
    split; [split; assumption | congruence].
  - unfold bind in H.
    destruct (initAtlas f s) as [[r s1] |] eqn:Hinit; [| discriminate H].
    inversion H; subst.
    destruct (initAtlas_result f s r s' Hinit) as (_ & _ & H3 & H4 & H5 & _).
    repeat split; auto.
  - unfold bind at 1 in H.
    destruct (hasGlyph f g s) as [[r s1] |] eqn:Hop; [| discriminate H].
    inversion H; subst. clear H.
    unfold hasGlyph, bind at 1 in Hop.
    destruct (getAtlas f s) as [[a s2] |] eqn:Hget; [| discriminate Hop].
    apply getAtlas_frame in Hget as [[H1 H2] H3].
    unfold bind, emit, call in Hop. simpl in Hop. inversion Hop; subst.
    repeat split; auto.
  - unfold bind at 1 in H.
    destruct (GrAtlasManager.addToAtlas f w h im l s) as [[r s1] |] eqn:Hop;
      [| discriminate H].
    inversion H; subst. clear H.
    unfold GrAtlasManager.addToAtlas, bind at 1 in Hop.
    destruct (getAtlas f s) as [[a s2] |] eqn:Hget; [| discriminate Hop].
    apply getAtlas_frame in Hget as [[H1 H2] H3].
    unfold bind, emit, call in Hop. simpl in Hop.
    destruct (GrDrawOpAtlas_addToAtlas a w h im l (world s2)) as [[code loc] w'].
    inversion Hop; subst. repeat split; auto.
  - unfold bind at 1 in H.
    destruct (addGlyphToBulkAndSetUseToken u f g tok s) as [[r s1] |] eqn:Hop;
      [| discriminate H].
    inversion H; subst. clear H.
    unfold addGlyphToBulkAndSetUseToken in Hop.
    destruct (BulkUseTokenUpdater_add u (fAtlasLocator g)) as [[|] u'].
    + unfold bind at 1 in Hop.
      destruct (getAtlas f s) as [[a s2] |] eqn:Hget; [| discriminate Hop].
      apply getAtlas_frame in Hget as [[H1 H2] H3].
      unfold bind, emit, call, ret in Hop. simpl in Hop. inversion Hop; subst.
      repeat split; auto.
    + inversion Hop; subst. repeat split; auto.
Qed.

(** X10.  No operation of the manager changes the length of [fAtlases] or
    the multitexturing flag, and only [setAtlasDimensionsToMinimum_ForTesting]
    changes the size configuration. *)
Theorem operations_keep_array_and_flags (ops : list Op) (s s' : Sys) :
  run_ops ops s = Some (tt, s') ->
  length (fAtlases (manager s')) = length (fAtlases (manager s))
  /\ (well_formed s -> well_formed s')
  /\ fAllowMultitexturing (manager s') = fAllowMultitexturing (manager s)
  /\ ((OpSetAtlasDimensionsToMinimum_ForTesting ∉ ops) ->
      fAtlasConfig (manager s') = fAtlasConfig (manager s)).
Proof.
  revert s. induction ops as [| op ops IH]; intros s H.
  - inversion H; subst. repeat split. auto.
  - simpl in H. unfold bind in H.
    destruct (run_op op s) as [[[] s1] |] eqn:Hop; [| discriminate H].
    apply run_op_frame in Hop as [[H1 H2] H3].
    apply IH in H as (H4 & _ & H6 & H7).
    assert (Hlen : length (fAtlases (manager s')) = length (fAtlases (manager s)))
      by congruence.
    split; [exact Hlen | split; [| split; [congruence |]]].
    + unfold well_formed. congruence.
    + intros Hnin. apply not_elem_of_cons in Hnin as [Hne Hnin].
      rewrite H7 by exact Hnin. apply H3. congruence.
Qed.

End ManagerMore.

(** ** The mesh test *)

Section MeshTestFacts.
Import GrMeshTest.

Lemma land_1_testbit a : Z.land a 1 = Z.b2z (Z.testbit a 0).
Proof.
  change 1 with (Z.ones 1) at 1. rewrite Z.land_ones by lia.
  rewrite Z.bit0_mod. reflexivity.
Qed.

Lemma channel_testbit c k :
  0 <= k ->
  Z.land (- (Z.land (Z.shiftr c k) 1)) 255 = if Z.testbit c k then 255 else 0.
Proof.
  intros Hk. rewrite land_1_testbit, Z.shiftr_spec, Z.add_0_l by lia.
  destruct (Z.testbit c k); reflexivity.
Qed.

Lemma rgbOf_testbit c :
  rgbOf c = [if Z.testbit c 0 then 255 else 0;
             if Z.testbit c 1 then 255 else 0;
             if Z.testbit c 2 then 255 else 0].
Proof.
  unfold rgbOf. rewrite <- (Z.shiftr_0_r c) at 1.
  rewrite !channel_testbit by lia. reflexivity.
Qed.

Lemma testbit_low_add8 c k : 0 <= k < 3 -> Z.testbit (c + 8) k = Z.testbit c k.
Proof.
  intros Hk.
  rewrite <- (Z.mod_pow2_bits_low (c + 8) 3 k) by lia.
  rewrite <- (Z.mod_pow2_bits_low c 3 k) by lia.
  f_equal. change (2 ^ 3) with 8.
  replace (c + 8) with (c + 1 * 8) by lia. apply Z.mod_add. lia.
Qed.

(** X11.  The colour channels of a box are 0 or 255: channel [k] is 255
    exactly when bit [k] of [c = y + x] is set.  The red channel flips from
    [c] to [c + 1], so boxes next to each other differ in colour channels,
    and the channels repeat with period 8 in [c]. *)
Theorem box_colours_checkerboard (c : Z) :
  0 <= c ->
  rgbOf c = [if Z.testbit c 0 then 255 else 0;
             if Z.testbit c 1 then 255 else 0;
             if Z.testbit c 2 then 255 else 0]
  /\ at_index 0 (rgbOf (c + 1)) 0 = 255 - at_index 0 (rgbOf c) 0
  /\ rgbOf (c + 8) = rgbOf c.
Proof.
  intros Hc. split; [apply rgbOf_testbit | split].
  - rewrite !rgbOf_testbit. unfold at_index. simpl.
    rewrite ?Z.bit0_odd, Z.odd_add. simpl.
    destruct (Z.odd c); reflexivity.
  - rewrite !rgbOf_testbit, !testbit_low_add8 by lia. reflexivity.
Qed.

Lemma box_colours_checkerboard_witness :
  rgbOf 5 = [255; 0; 255] /\ at_index 0 (rgbOf 6) 0 = 0.
Proof.
  assert (H : 0 <= 5) by lia.
  destruct (box_colours_checkerboard 5 H) as (H1 & H2 & _).
  split; [exact H1 | exact H2].
Defined.

Lemma fits_int_true (z : Z) : - 2 ^ 31 <= z < 2 ^ 31 -> fits_int z = true.
Proof.
  intros Hz. unfold fits_int. apply andb_true_iff.
  split; [apply Z.leb_le | apply Z.ltb_lt]; lia.
Qed.

Lemma fits_int_false (z : Z) : 2 ^ 31 <= z -> fits_int z = false.
Proof.
  intros Hz. unfold fits_int. apply andb_false_iff. right. apply Z.ltb_ge. lia.
Qed.

Lemma rem_succ_3 (b : Z) :
  0 <= b < 3 ->
  Z.rem (b + 1) 3 = if b =? 2 then 0 else b + 1.
Proof.
  intros Hb. assert (b = 0 \/ b = 1 \/ b = 2) as [-> | [-> | ->]] by lia; reflexivity.
Qed.

(** One iteration, from a state whose [int] expressions are in range. *)
Lemma drawIndexedLoop_step (fuel : nat) (n b i : Z) :
  0 <= b < 3 -> b <= i < n -> n < 2 ^ 31 -> i - b < 2 ^ 29 ->
  drawIndexedLoop (S fuel) n b i =
  match drawIndexedLoop fuel n (Z.rem (b + 1) 3) (i + Z.min (3 - b) (n - i)) with
  | Returns calls =>
      Returns (MakeDrawIndexed (Z.min (3 - b) (n - i) * 6) (b * 6) (b * 4)
                               ((b + Z.min (3 - b) (n - i)) * 4 - 1) ((i - b) * 4)
               :: calls)
  | Overflows => Overflows
  | OutOfFuel => OutOfFuel
  end.
Proof.
  intros Hb Hi Hn Hbase. cbn [drawIndexedLoop].
  destruct (Z.ltb_spec i n) as [_ | Hge]; [| lia].
  set (rep := Z.min (3 - b) (n - i)).
  assert (Hrep : 1 <= rep <= 3 - b /\ rep <= n - i) by (unfold rep; lia).
  assert (Hfits : forallb fits_int
                    [3 - b; n - i; rep * 6; b * 6; b * 4; b + rep; (b + rep) * 4;
                     (b + rep) * 4 - 1; i - b; (i - b) * 4; b + 1; i + rep] = true).
  { cbn [forallb]. rewrite !andb_true_iff.
    repeat split; try apply fits_int_true; lia. }
  rewrite Hfits. reflexivity.
Qed.

(** An iteration whose base vertex is no [int]. *)
Lemma drawIndexedLoop_base_overflows (fuel : nat) (n b i : Z) :
  i < n -> 2 ^ 31 <= (i - b) * 4 ->
  drawIndexedLoop (S fuel) n b i = Overflows.
Proof.
  intros Hi Hbase. cbn [drawIndexedLoop].
  destruct (Z.ltb_spec i n) as [_ | Hge]; [| lia].
  cbn [forallb]. rewrite (fits_int_false ((i - b) * 4) Hbase).
  cbn [andb]. rewrite !andb_false_r. reflexivity.
Qed.

Lemma drawIndexedLoop_step_overflows (fuel : nat) (n b i : Z) :
  0 <= b < 3 -> b <= i < n -> n < 2 ^ 31 -> i - b < 2 ^ 29 ->
  drawIndexedLoop fuel n (Z.rem (b + 1) 3) (i + Z.min (3 - b) (n - i)) = Overflows ->
  drawIndexedLoop (S fuel) n b i = Overflows.
Proof.
  intros Hb Hi Hn Hbase Hrest.
  rewrite drawIndexedLoop_step by assumption. rewrite Hrest. reflexivity.
Qed.

(** With 2^29 + 3 boxes: the loop passes the states [(0, 6 k)] and, from
    box 2^29 + 1 on, asks for a base vertex of 2^31. *)
Lemma drawIndexedLoop_too_many (n : Z) :
  n = 2 ^ 29 + 3 ->
  forall (fuel : nat) (k : Z),
    0 <= k -> 6 * k <= 2 ^ 29 - 2 -> n - 6 * k <= Z.of_nat fuel ->
    drawIndexedLoop fuel n 0 (6 * k) = Overflows.
Proof.
  intros Hn fuel. induction fuel as [fuel IH] using lt_wf_ind.
  intros k Hk Hle Hfuel.
  destruct (Z.eq_dec (6 * k) (2 ^ 29 - 2)) as [Hlast | Hmore].
  - destruct fuel as [| [| fuel]]; try lia.
    apply drawIndexedLoop_step_overflows; try lia.
    change (Z.rem (0 + 1) 3) with 1.
    apply drawIndexedLoop_base_overflows; lia.
  - destruct fuel as [| [| [| fuel]]]; try lia.
    apply drawIndexedLoop_step_overflows; try lia.
    change (Z.rem (0 + 1) 3) with 1.
    replace (6 * k + Z.min (3 - 0) (n - 6 * k)) with (6 * k + 3) by lia.
    apply drawIndexedLoop_step_overflows; try lia.
    change (Z.rem (1 + 1) 3) with 2.
    replace (6 * k + 3 + Z.min (3 - 1) (n - (6 * k + 3))) with (6 * k + 5) by lia.
    apply drawIndexedLoop_step_overflows; try lia.
    change (Z.rem (2 + 1) 3) with 0.
    replace (6 * k + 5 + Z.min (3 - 2) (n - (6 * k + 5))) with (6 * (k + 1)) by lia.
    apply IH; lia.
Qed.

Lemma drawIndexedLoop_covers (fuel : nat) :
  forall n b i : Z,
    0 <= b < 3 -> b <= i <= n -> n <= 2 ^ 29 -> n - i <= Z.of_nat fuel ->
    exists calls : list DrawIndexed,
      drawIndexedLoop fuel n b i = Returns calls /\ covers i n calls.
Proof.
  induction fuel as [| fuel IH]; intros n b i Hb Hi Hn Hfuel.
  - assert (i = n) by lia. subst i. exists []. simpl.
    rewrite Z.ltb_irrefl. split; [reflexivity | constructor].
  - destruct (Z.lt_ge_cases i n) as [Hlt | Hge].
    + rewrite drawIndexedLoop_step by lia.
      set (rep := Z.min (3 - b) (n - i)).
      assert (Hrep : 1 <= rep <= 3 - b /\ rep <= n - i) by (unfold rep; lia).
      pose proof (rem_succ_3 b Hb) as Hrem.
      assert (Hb' : 0 <= Z.rem (b + 1) 3 < 3 /\ Z.rem (b + 1) 3 <= b + 1)
        by (rewrite Hrem; destruct (Z.eqb_spec b 2); lia).
      destruct (IH n (Z.rem (b + 1) 3) (i + rep)) as (calls & Hrun & Hcov); try lia.
      rewrite Hrun. eexists. split; [reflexivity |].
      apply (covers_draw i n rep); cbn [indexCount baseIndex minIndexValue
                                        maxIndexValue baseVertex];
        unfold kIndexPatternRepeatCount; try lia. exact Hcov.
    + assert (i = n) by lia. subst i. exists []. cbn [drawIndexedLoop].
      rewrite Z.ltb_irrefl. split; [reflexivity | constructor].
Qed.

(** X14.  The loop of the "drawIndexed" test, on the 64 boxes of the test,
    ends after 32 draws that cover the boxes in order, each box once: a draw
    takes one to three boxes, reads indices inside the three repetitions of
    the patterned index buffer, has a non-negative base vertex, and its
    index range addresses exactly the vertices of its boxes.  The same holds
    for any number of boxes up to 2^29, every [int] the loop computes being
    in range; with 2^29 + 3 boxes the base vertex of a draw overflows. *)
Theorem drawIndexed_draws_every_box_once :
  (forall n : Z, 0 <= n <= 2 ^ 29 ->
     exists calls : list DrawIndexed,
       drawIndexedLoop (Z.to_nat n) n 0 0 = Returns calls /\ covers 0 n calls)
  /\ (exists calls : list DrawIndexed,
        drawIndexedCalls = Returns calls /\ covers 0 kBoxCount calls
        /\ length calls = 32%nat)
  /\ (forall fuel : nat,
        2 ^ 29 + 3 <= Z.of_nat fuel ->
        drawIndexedLoop fuel (2 ^ 29 + 3) 0 0 = Overflows).
Proof.
  split; [| split].
  - intros n Hn. apply drawIndexedLoop_covers; lia.
  - destruct (drawIndexedLoop_covers (Z.to_nat kBoxCount) kBoxCount 0 0)
      as (calls & Hrun & Hcov); try (vm_compute; intuition congruence).
    exists calls. split; [exact Hrun | split; [exact Hcov |]].
    unfold drawIndexedCalls in *.
    assert (Hlen : match drawIndexedLoop (Z.to_nat kBoxCount) kBoxCount 0 0 with
                   | Returns l => length l = 32%nat
                   | _ => False
                   end)
      by (vm_compute; reflexivity).
    rewrite Hrun in Hlen. exact Hlen.
  - intros fuel Hfuel.
    apply (drawIndexedLoop_too_many (2 ^ 29 + 3) eq_refl fuel 0); lia.
Qed.

End MeshTestFacts.

Section MeshTestLayout.
Import GrMeshTest.
Context {packing : ColorPacking}.

Ltac enumerate8 v H :=
  let E := fresh "E" in
  assert (E : v = 0 \/ v = 1 \/ v = 2 \/ v = 3 \/ v = 4 \/ v = 5 \/ v = 6 \/ v = 7)
    by (cbv [kBoxCountX kBoxCountY] in H; lia);
  clear H;
  destruct E as [E | [E | [E | [E | [E | [E | [E | E]]]]]]]; subst v.

(** X12.  After the setup loops, box [(x, y)] is entry [y * kBoxCountX + x] of
    [boxes] and of [vertexData]; its four vertices are the corners of the
    square of side [kBoxSize] at [(x * kBoxSize, y * kBoxSize)], as exact
    float values, and the square lies inside the image. *)
Theorem boxes_row_major (x y : Z) :
  0 <= x < kBoxCountX -> 0 <= y < kBoxCountY ->
  boxes !! Z.to_nat (y * kBoxCountX + x) = Some (makeBox x y)
  /\ vertexData !! Z.to_nat (y * kBoxCountX + x)
     = Some (map (boxVertex (makeBox x y)) [0; 1; 2; 3])
  /\ (forall i : Z, 0 <= i < 4 ->
        SkScalar.has_value (fX (boxVertex (makeBox x y) i))
                           (inject_Z (x * kBoxSize + Z.quot i 2 * kBoxSize))
        /\ SkScalar.has_value (fY (boxVertex (makeBox x y) i))
                              (inject_Z (y * kBoxSize + Z.rem i 2 * kBoxSize)))
  /\ 0 <= x * kBoxSize /\ x * kBoxSize + kBoxSize <= kImageWidth
  /\ 0 <= y * kBoxSize /\ y * kBoxSize + kBoxSize <= kImageHeight
  /\ length boxes = Z.to_nat kBoxCount
  /\ length vertexData = Z.to_nat kBoxCount.
Proof.
  intros Hx Hy.
  assert (Hin : 0 <= x * kBoxSize /\ x * kBoxSize + kBoxSize <= kImageWidth
                /\ 0 <= y * kBoxSize /\ y * kBoxSize + kBoxSize <= kImageHeight)
    by (cbv [kBoxSize kImageWidth kImageHeight kBoxCountX kBoxCountY] in *; lia).
  assert (Hlen : length boxes = Z.to_nat kBoxCount /\ length vertexData = Z.to_nat kBoxCount)
    by (split; vm_compute; reflexivity).
  split; [| split; [| split; [| tauto]]].
  - enumerate8 x Hx; enumerate8 y Hy; reflexivity.
  - enumerate8 x Hx; enumerate8 y Hy; reflexivity.
  - intros i Hi.
    assert (Ei : i = 0 \/ i = 1 \/ i = 2 \/ i = 3) by lia.
    enumerate8 x Hx; enumerate8 y Hy;
      destruct Ei as [-> | [-> | [-> | ->]]]; split; vm_compute; reflexivity.
Qed.


(** X13.  The "draw" test issues one draw a line of boxes, and the vertices
    draw [y] reads from the expanded vertex buffer are exactly the two
    triangles of each box of row [y], in order; the eight draws stay inside
    the buffer of [6 * kBoxCount] vertices. *)
Theorem draw_lines_cover_rows (y : Z) :
  0 <= y < kBoxCountY ->
  exists d : Draw,
    drawCalls !! Z.to_nat y = Some d
    /\ drawVertexCount d = 6 * kBoxCountX
    /\ drawBaseVertex d = y * (6 * kBoxCountX)
    /\ drawBaseVertex d + drawVertexCount d
       <= Z.of_nat (length (expandedVertexData vertexData))
    /\ take (Z.to_nat (drawVertexCount d))
            (drop (Z.to_nat (drawBaseVertex d)) (expandedVertexData vertexData))
       = concat (map (fun x => boxTriangles x y) [0; 1; 2; 3; 4; 5; 6; 7])
    /\ length drawCalls = Z.to_nat kBoxCountY
    /\ Z.of_nat (length (expandedVertexData vertexData)) = 6 * kBoxCount.
Proof.
  intros Hy.
  assert (Hlen : Z.of_nat (length (expandedVertexData vertexData)) = 6 * kBoxCount)
    by (vm_compute; reflexivity).
  enumerate8 y Hy; eexists;
    (split; [reflexivity |]);
    (split; [reflexivity |]);
    (split; [reflexivity |]);
    (split; [rewrite Hlen; vm_compute; discriminate |]);
    (split; [reflexivity |]);
    (split; [reflexivity | exact Hlen]).
Qed.


End MeshTestLayout.

(** ** The further statements at concrete inputs *)

Section MoreInstances.
Import GrDrawOpAtlas GrAtlasManager Fixture GrMeshTest.

Lemma initAtlas_postcondition_witness :
  exists (r : bool) (s' : Sys),
    initAtlas kA565 (sys [None; None; None] [true] 4) = Some (r, s')
    /\ (r = true <-> is_Some (atlasOf s' kA565)).
Proof.
  assert (H : (MaskFormatToAtlasIndex kA565
               < length (fAtlases (manager (sys [None; None; None] [true] 4))))%nat)
    by (simpl; lia).
  destruct (initAtlas_postcondition (sys [None; None; None] [true] 4) kA565 H)
    as (r & s' & H1 & H2 & _).
  exists r, s'. split; [exact H1 | exact H2].
Defined.

Lemma operations_forward_to_atlas_witness :
  hasGlyph kA8 (glyphAt 0 0) (sys [Some 5%nat; None; None] [] 9)
  = Some (true, MakeSys (manager (sys [Some 5%nat; None; None] [] 9))
                        (world (sys [Some 5%nat; None; None] [] 9))
                        [EvHasID 5%nat (fAtlasLocator (glyphAt 0 0))]).
Proof.
  assert (H : atlasOf (sys [Some 5%nat; None; None] [] 9) kA8 = Some 5%nat)
    by reflexivity.
  exact (proj1 (operations_forward_to_atlas
                  (sys [Some 5%nat; None; None] [] 9) kA8 5%nat H) (glyphAt 0 0)).
Defined.

Lemma operations_keep_array_and_flags_witness :
  run_ops [OpSetAtlasDimensionsToMinimum_ForTesting; OpInitAtlas kA8]
          (sys [Some 5%nat; None; None] [true] 9)
  = Some (tt, MakeSys (MakeManager true [Some 9%nat; None; None] 1)
                      ([], 10%nat)
                      [EvDelete 5%nat;
                       EvMake 0%nat
                         (makeArgs (MakeManager true [None; None; None] 1) kA8)])
  /\ length (fAtlases (MakeManager true [Some 9%nat; None; None] 1))
     = length (fAtlases (manager (sys [Some 5%nat; None; None] [true] 9))).
Proof.
  assert (H : run_ops [OpSetAtlasDimensionsToMinimum_ForTesting; OpInitAtlas kA8]
                      (sys [Some 5%nat; None; None] [true] 9)
              = Some (tt, MakeSys (MakeManager true [Some 9%nat; None; None] 1)
                                  ([], 10%nat)
                                  [EvDelete 5%nat;
                                   EvMake 0%nat
                                     (makeArgs (MakeManager true [None; None; None] 1)
                                               kA8)]))
    by reflexivity.
  split; [exact H |].
  exact (proj1 (operations_keep_array_and_flags _ _ _ H)).
Defined.

Lemma boxes_row_major_witness :
  boxes (packing := bytePacking) !! 11%nat = Some (makeBox 3 1)
  /\ vertexData (packing := bytePacking) !! 11%nat = Some (map (boxVertex (makeBox 3 1)) [0; 1; 2; 3]).
Proof.
  assert (Hx : 0 <= 3 < kBoxCountX) by (cbv [kBoxCountX]; lia).
  assert (Hy : 0 <= 1 < kBoxCountY) by (cbv [kBoxCountY]; lia).
  destruct (boxes_row_major 3 1 Hx Hy) as (H1 & H2 & _).
  split; [exact H1 | exact H2].
Defined.

Lemma draw_lines_cover_rows_witness :
  exists d : Draw,
    drawCalls !! 2%nat = Some d /\ drawBaseVertex d = 96.
Proof.
  assert (Hy : 0 <= 2 < kBoxCountY) by (cbv [kBoxCountY]; lia).
  destruct (draw_lines_cover_rows 2 Hy) as (d & H1 & _ & H3 & _).
  exists d. split; [exact H1 | exact H3].
Defined.

End MoreInstances.

Section MoreLedgerInstances.
Import GrDrawOpAtlas GrAtlasManager Ledger.

(** Atlases 7 and 8 live: [freeAll] deletes 7, then 8; a second [freeAll]
    deletes nothing. *)
Lemma freeAll_idempotent_witness :
  exists s1 : Sys,
    freeAll (sys [Some 7%nat; None; Some 8%nat]) = Some (tt, s1)
    /\ freeAll s1 = Some (tt, s1)
    /\ world s1 = [Deleted 7; Deleted 8].
Proof.
  assert (H : well_formed (sys [Some 7%nat; None; Some 8%nat])) by reflexivity.
  destruct (freeAll_idempotent (sys [Some 7%nat; None; Some 8%nat]) H)
    as (s1 & H1 & H2 & _ & _ & _ & _ & H7 & _).
  exists s1. split; [exact H1 | split; [exact H2 | exact H7]].
Defined.

(** Atlas 7 lives: the reset deletes it, and the next [initAtlas] for
    [kARGB] makes an atlas in the world after the deletion. *)
Lemma testing_reset_then_default_dimensions_witness :
  exists s1 : Sys,
    setAtlasDimensionsToMinimum_ForTesting (sys [Some 7%nat; None; None])
    = Some (tt, s1)
    /\ fAtlasConfig (manager s1) = 1
    /\ world s1 = [Deleted 7]
    /\ exists (r : bool) (s2 : Sys),
         initAtlas Fixture.kARGB s1 = Some (r, s2)
         /\ world s2 = [Deleted 7; Made 1].
Proof.
  assert (H : well_formed (sys [Some 7%nat; None; None])) by reflexivity.
  assert (Hi : (MaskFormatToAtlasIndex Fixture.kARGB < kMaskFormatCount)%nat)
    by (simpl; lia).
  destruct (testing_reset_then_default_dimensions
              (sys [Some 7%nat; None; None]) Fixture.kARGB H Hi)
    as (s1 & H1 & _ & H3 & _ & H5 & _ & r & s2 & args & H7 & _ & H9 & _).
  exists s1. split; [exact H1 | split; [exact H3 | split; [exact H5 |]]].
  exists r, s2. split; [exact H7 |].
  rewrite H9, H5. reflexivity.
Defined.

End MoreLedgerInstances.
